(** * Updatable, weighted random forest: the voting ensemble

    A shallow embedding of the class [UpdatableRandomForestClassifier] of
    [updatable_random_forest.ipynb] (cell 2), together with the parts of
    numpy, scipy and scikit-learn that its four methods call.

    - arrays of class indices, labels and vote weights are lists of [Z];
      a two-dimensional array is the list of its rows;
    - a Python exception is a value of [exn], a call that may raise returns
      [result A]; a method that also mutates [self] is a state transformer
      [method A];
    - a fitted tree is an opaque object with a [predict] function; growing
      trees from data is the interface [TreeLearner]. *)

From Stdlib Require Import List ZArith QArith Bool Lia Sorted Permutation.
Import ListNotations.
Local Open Scope Z_scope.

(** ** Exceptions and results *)

Inductive exn : Type :=
| ValueError
| IndexError
| TypeError
| ZeroDivisionError
| AttributeError
| NameError
| NotFittedError.

Definition result (A : Type) : Type := (exn + A)%type.

Definition Ok {A : Type} (a : A) : result A := inr a.
Definition Raise {A : Type} (e : exn) : result A := inl e.

Definition bind {A B : Type} (r : result A) (k : A -> result B) : result B :=
  match r with
  | inl e => inl e
  | inr a => k a
  end.

Notation "x <- r ;; k" := (bind r (fun x => k))
  (at level 61, r at next level, right associativity).

Definition fails {A : Type} (r : result A) : Prop := exists e, r = Raise e.

Fixpoint mapM {A B : Type} (f : A -> result B) (l : list A) : result (list B) :=
  match l with
  | [] => Ok []
  | a :: l' => b <- f a ;; bs <- mapM f l' ;; Ok (b :: bs)
  end.

(** ** numpy *)

Module np.

(** [np.repeat(v, n)] for a scalar [v]: [n] copies, [ValueError] for a
    negative count. *)
Definition repeat (v n : Z) : result (list Z) :=
  if n <? 0 then Raise ValueError else Ok (List.repeat v (Z.to_nat n)).

(** Row [r] repeated [c] times. *)
Definition repeat_row (r : list Z) (c : Z) : list (list Z) :=
  List.repeat r (Z.to_nat c).

(** [np.repeat(a, repeats, axis=0)] for a two-dimensional [a]: row [i] is
    repeated [repeats[i]] times.  A negative count is a [ValueError]; a
    single count is broadcast to every row; any other length that is not
    the number of rows is a [ValueError]. *)
Definition repeat_axis0 (a : list (list Z)) (repeats : list Z)
  : result (list (list Z)) :=
  if existsb (fun c => c <? 0) repeats then Raise ValueError
  else match repeats with
       | [c] => Ok (flat_map (fun r => repeat_row r c) a)
       | _ =>
         if (length repeats =? length a)%nat
         then Ok (flat_map (fun rc => repeat_row (fst rc) (snd rc))
                           (combine a repeats))
         else Raise ValueError
       end.

Definition concatenate (a b : list Z) : list Z := a ++ b.

(** Insertion into a strictly increasing list, dropping a value that is
    already there. *)
Fixpoint insert (v : Z) (l : list Z) : list Z :=
  match l with
  | [] => [v]
  | u :: l' =>
    if v <? u then v :: l
    else if v =? u then l
    else u :: insert v l'
  end.

(** [np.unique(a)]: the sorted distinct values of [a]. *)
Definition unique (a : list Z) : list Z := fold_right insert [] a.

(** [a.take(i)] for one index: Python indexing with wrap-around of the
    negative indices [-len(a) .. -1], [IndexError] outside. *)
Definition take1 (a : list Z) (i : Z) : result Z :=
  let n := Z.of_nat (length a) in
  if (0 <=? i) && (i <? n) then Ok (nth (Z.to_nat i) a 0)
  else if (- n <=? i) && (i <? 0) then Ok (nth (Z.to_nat (n + i)) a 0)
  else Raise IndexError.

(** [a.take(indices, axis=0)]. *)
Definition take (a : list Z) (indices : list Z) : result (list Z) :=
  mapM (take1 a) indices.

(** The value of [a == b] for one-dimensional arrays: an array of booleans
    when the shapes are equal or one of them has length one (broadcasting),
    and otherwise the scalar [False] (with a warning). *)
Inductive comparison : Type :=
| Elementwise (bs : list bool)
| ScalarFalse.

Definition equal (a b : list Z) : comparison :=
  if (length a =? length b)%nat
  then Elementwise (map (fun p : Z * Z => fst p =? snd p) (combine a b))
  else match a, b with
       | [u], _ => Elementwise (map (fun v => u =? v) b)
       | _, [v] => Elementwise (map (fun u => u =? v) a)
       | _, _ => ScalarFalse
       end.

(** [np.sum(t, axis=0)] for a boolean array [t] with [ncols] columns: how
    many rows are true in each column. *)
Definition add_row (row : list bool) (acc : list Z) : list Z :=
  map (fun p : bool * Z => (if fst p then 1 else 0) + snd p) (combine row acc).

Definition sum_axis0 (ncols : nat) (t : list (list bool)) : list Z :=
  fold_right add_row (List.repeat 0 ncols) t.

(** [np.where(cond, x, y)] with a scalar [x]. *)
Definition where_ (cond : list bool) (x : Z) (y : list Z) : list Z :=
  map (fun p : bool * Z => if fst p then x else snd p) (combine cond y).

Definition greater (a b : list Z) : list bool :=
  map (fun p : Z * Z => snd p <? fst p) (combine a b).

Definition maximum (a b : list Z) : list Z :=
  map (fun p : Z * Z => Z.max (fst p) (snd p)) (combine a b).

End np.

(** ** scipy.stats *)

Module stats.

(** One turn of the loop of [scipy.stats.mode(a, axis=0)]: the columns in
    which [score] is strictly more frequent than the best so far take it. *)
Definition mode_step (a : list (list Z)) (ncols : nat)
           (st : list Z * list Z) (score : Z) : list Z * list Z :=
  let oldmostfreq := fst st in
  let oldcounts := snd st in
  let template := map (map (fun v => v =? score)) a in
  let counts := np.sum_axis0 ncols template in
  let mostfrequent := np.where_ (np.greater counts oldcounts) score oldmostfreq in
  (mostfrequent, np.maximum counts oldcounts).

(** [scipy.stats.mode(a, axis=0)]: for an array without elements the pair
    of two empty arrays; otherwise the loop over the sorted distinct values
    of the whole array, and a result of shape (1, ncols). *)
Definition mode (a : list (list Z)) : list (list Z) * list (list Z) :=
  match a with
  | [] => ([], [])
  | row :: _ =>
    let ncols := length row in
    if (ncols =? 0)%nat then ([], [])
    else
      let scores := np.unique (concat a) in
      let zeros := List.repeat 0 ncols in
      let st := fold_left (mode_step a ncols) scores (zeros, zeros) in
      ([fst st], [snd st])
  end.

End stats.

(** [modes[0]]: the first row, [IndexError] on an empty array. *)
Definition first_row (modes : list (list Z)) : result (list Z) :=
  match modes with
  | [] => Raise IndexError
  | r :: _ => Ok r
  end.

(** ** scikit-learn: trees and the base forest *)

(** A fitted decision tree.  Inside a forest it is trained on the class
    indices of the labels, so [predict] answers with a class index. *)
Record estimator (Sample : Type) : Type := { predict : Sample -> Z }.
Arguments predict {Sample} _ _.

(** The tree trainer (the collaborator of the ensemble): [grow_trees rs n X y]
    are the trees of [RandomForestClassifier(n_estimators=n, random_state=rs)]
    fitted on the samples [X] with the class indices [y].  There are exactly
    [n] of them, and a tree answers with one of the indices it was shown. *)
Class TreeLearner (Sample : Type) : Type := {
  grow_trees : option Z -> Z -> list Sample -> list Z -> list (estimator Sample);
  grow_trees_length : forall rs n X y,
    length (grow_trees rs n X y) = Z.to_nat n;
  grow_trees_range : forall rs n X y e x,
    y <> [] -> In e (grow_trees rs n X y) -> In (predict e x) y
}.

(** The keyword arguments the notebook passes: a key is present or not. *)
Record kwargs : Type := {
  kw_init_vote_weight : option Z;
  kw_n_estimators : option Z;
  kw_random_state : option Z
}.

Definition no_kwargs : kwargs :=
  {| kw_init_vote_weight := None; kw_n_estimators := None;
     kw_random_state := None |}.

(** Position of [v] in [l] (the length of [l] when it is not there). *)
Fixpoint index_of (v : Z) (l : list Z) : Z :=
  match l with
  | [] => 0
  | u :: l' => if v =? u then 0 else 1 + index_of v l'
  end.

Section Forest.

Context {Sample : Type}.

(** What [fit] leaves on the object ([n_outputs_] comes with them). *)
Record fit_attrs : Type := {
  classes_ : list Z;
  estimators_ : list (estimator Sample)
}.

Record RandomForestClassifier : Type := {
  n_estimators : Z;
  random_state : option Z;
  fitted : option fit_attrs
}.

(** The subclass adds one attribute. *)
Record UpdatableRandomForestClassifier : Type := {
  super : RandomForestClassifier;
  vote_weights : list Z
}.

(** [RandomForestClassifier(kwargs)]: ten trees by default; the
    constructor does not know the key [init_vote_weight]. *)
Definition RandomForestClassifier_init (kw : kwargs)
  : result RandomForestClassifier :=
  match kw_init_vote_weight kw with
  | Some _ => Raise TypeError
  | None =>
    Ok {| n_estimators := match kw_n_estimators kw with
                          | Some n => n
                          | None => 10
                          end;
          random_state := kw_random_state kw;
          fitted := None |}
  end.

(** [check_array(X)]: at least one sample. *)
Definition check_array (X : list Sample) : result (list Sample) :=
  match X with
  | [] => Raise ValueError
  | _ => Ok X
  end.

(** [RandomForestClassifier.fit(X, y)] of scikit-learn, as far as the
    ensemble depends on it: the data are checked, the number of trees must
    be positive, [classes_] are the sorted distinct labels, and the trees
    are grown on the class indices of [y].  The range of the seed is not
    checked here; see [valid_seed]. *)
Definition RandomForestClassifier_fit `{TreeLearner Sample}
           (self : RandomForestClassifier) (X : list Sample) (y : list Z)
  : result RandomForestClassifier :=
  X <- check_array X ;;
  if negb (length X =? length y)%nat then Raise ValueError
  else if n_estimators self <=? 0 then Raise ValueError
  else
    let classes := np.unique y in
    let y_indices := map (fun v => index_of v classes) y in
    Ok {| n_estimators := n_estimators self;
          random_state := random_state self;
          fitted := Some {| classes_ := classes;
                            estimators_ := grow_trees (random_state self)
                                             (n_estimators self) X y_indices |} |}.

(** ** Methods and the state of [self] *)

Definition method (A : Type) : Type :=
  UpdatableRandomForestClassifier -> result A * UpdatableRandomForestClassifier.

Definition mret {A : Type} (a : A) : method A := fun self => (Ok a, self).

Definition mbind {A B : Type} (m : method A) (k : A -> method B) : method B :=
  fun self =>
    match m self with
    | (inl e, self') => (inl e, self')
    | (inr a, self') => k a self'
    end.

(** A call that does not touch [self]. *)
Definition call {A : Type} (r : result A) : method A := fun self => (r, self).

(** Reading an attribute of [self]. *)
Definition getattr {A : Type} (f : UpdatableRandomForestClassifier -> result A)
  : method A := fun self => (f self, self).

(** Assigning to an attribute of [self]. *)
Definition setattr
           (f : UpdatableRandomForestClassifier -> UpdatableRandomForestClassifier)
  : method unit := fun self => (Ok tt, f self).

Notation "x <~ m ;; k" := (mbind m (fun x => k))
  (at level 61, m at next level, right associativity).
Notation "m ;;; k" := (mbind m (fun _ => k))
  (at level 61, right associativity).

Definition set_n_estimators (n : Z) (self : UpdatableRandomForestClassifier)
  : UpdatableRandomForestClassifier :=
  {| super := {| n_estimators := n;
                 random_state := random_state (super self);
                 fitted := fitted (super self) |};
     vote_weights := vote_weights self |}.

Definition set_estimators_ (es : list (estimator Sample))
           (self : UpdatableRandomForestClassifier)
  : UpdatableRandomForestClassifier :=
  {| super := {| n_estimators := n_estimators (super self);
                 random_state := random_state (super self);
                 fitted := match fitted (super self) with
                           | Some fa => Some {| classes_ := classes_ fa;
                                                estimators_ := es |}
                           | None => None
                           end |};
     vote_weights := vote_weights self |}.

Definition set_vote_weights (ws : list Z) (self : UpdatableRandomForestClassifier)
  : UpdatableRandomForestClassifier :=
  {| super := super self; vote_weights := ws |}.

(** [self.estimators_]: the attribute exists once the forest is fitted. *)
Definition get_estimators_ (r : RandomForestClassifier)
  : result (list (estimator Sample)) :=
  match fitted r with
  | Some fa => Ok (estimators_ fa)
  | None => Raise AttributeError
  end.

(** [UpdatableRandomForestClassifier(kwargs)] *)
Definition __init__ (kw : kwargs) : result UpdatableRandomForestClassifier :=
  let init_vote_weight := match kw_init_vote_weight kw with
                          | Some w => w
                          | None => 1
                          end in
  base <- RandomForestClassifier_init
            {| kw_init_vote_weight := None;
               kw_n_estimators := kw_n_estimators kw;
               kw_random_state := kw_random_state kw |} ;;
  ws <- np.repeat init_vote_weight (n_estimators base) ;;
  Ok {| super := base; vote_weights := ws |}.

(** The inherited [self.fit(X, y)]: it replaces the base attributes and
    leaves [vote_weights] alone.  What a call that raises leaves on [self]
    is not modelled (the state is kept); the statements below are about
    calls that return. *)
Definition fit `{TreeLearner Sample} (X : list Sample) (y : list Z)
  : method unit :=
  self <~ getattr Ok ;;
  base <~ call (RandomForestClassifier_fit (super self) X y) ;;
  setattr (fun s => {| super := base; vote_weights := vote_weights s |}).

(** [self.fit_new_data(X, y, vote_weight, kwargs)] *)
Definition fit_new_data `{TreeLearner Sample} (X : list Sample) (y : list Z)
           (vote_weight : Z) (kw : kwargs) : method unit :=
  new_trees <~ call (rfc <- RandomForestClassifier_init kw ;;
                     RandomForestClassifier_fit rfc X y) ;;
  new_tree_weights <~ call (np.repeat vote_weight (n_estimators new_trees)) ;;
  self <~ getattr Ok ;;
  setattr (set_n_estimators (n_estimators (super self) + n_estimators new_trees)) ;;;
  old_estimators <~ getattr (fun s => get_estimators_ (super s)) ;;
  new_estimators <~ call (get_estimators_ new_trees) ;;
  setattr (set_estimators_ (old_estimators ++ new_estimators)) ;;;
  self <~ getattr Ok ;;
  setattr (set_vote_weights (np.concatenate (vote_weights self) new_tree_weights)).

(** [self.predict_votes(X)].  The partition of the trees into jobs and the
    thread pool only schedule the calls of [predict]; the list of their
    answers is in the order of [estimators_]. *)
Definition all_preds (fa : fit_attrs) (X : list Sample) : list (list Z) :=
  map (fun e => map (predict e) X) (estimators_ fa).

(** The array that is tallied: the predictions of old and new trees,
    repeated by their weights. *)
Definition weighted_preds (self : UpdatableRandomForestClassifier)
           (fa : fit_attrs) (X : list Sample) : result (list (list Z)) :=
  np.repeat_axis0 (all_preds fa X) (vote_weights self).

Definition predict_votes (self : UpdatableRandomForestClassifier)
           (X : list Sample) : result (list Z) :=
  match fitted (super self) with
  | None => Raise NotFittedError
  | Some fa =>
    X <- check_array X ;;
    all_preds <- weighted_preds self fa X ;;
    let modes := fst (stats.mode all_preds) in
    modes <- first_row modes ;;
    np.take (classes_ fa) modes
  end.

(** The builtin [sum] over the value of a comparison: the scalar [False]
    is not iterable. *)
Definition py_sum (c : np.comparison) : result Z :=
  match c with
  | np.Elementwise bs => Ok (Z.of_nat (length (filter (fun b => b) bs)))
  | np.ScalarFalse => Raise TypeError
  end.

(** True division by a length; the quotient of two integers is kept as a
    rational number. *)
Definition truediv (s : Z) (n : nat) : result Q :=
  match n with
  | O => Raise ZeroDivisionError
  | S _ => Ok (Qmake s (Pos.of_nat n))
  end.

(** [self.score_votes(X, y)].  The body reads the module-level name [rf],
    whose binding is the first argument here ([None]: the name is not
    bound). *)
Definition score_votes (rf : option UpdatableRandomForestClassifier)
           (self : UpdatableRandomForestClassifier)
           (X : list Sample) (y : list Z) : result Q :=
  match rf with
  | None => Raise NameError
  | Some rf =>
    preds <- predict_votes rf X ;;
    matches <- py_sum (np.equal preds y) ;;
    truediv matches (length y)
  end.

End Forest.

Arguments fit_attrs : clear implicits.
Arguments RandomForestClassifier : clear implicits.
Arguments UpdatableRandomForestClassifier : clear implicits.

(** * The vocabulary of the specification *)

(** The label that stands behind a class index. *)
Definition class_label (classes : list Z) (i : Z) : Z := nth (Z.to_nat i) classes 0.

(** Column [j] of a two-dimensional array. *)
Definition column (j : nat) (a : list (list Z)) : list Z :=
  map (fun row => nth j row 0) a.

(** How often [v] occurs in a one-dimensional array. *)
Definition count (v : Z) (col : list Z) : Z :=
  Z.of_nat (count_occ Z.eq_dec col v).

(** Every row has [ncols] entries. *)
Definition rectangular {A : Type} (ncols : nat) (a : list (list A)) : Prop :=
  Forall (fun row => length row = ncols) a.

(** The loop of [mode] as one column sees it: the best value so far and
    its count. *)
Definition col_step (col : list Z) (st : Z * Z) (score : Z) : Z * Z :=
  let c := count score col in
  (if snd st <? c then score else fst st, Z.max c (snd st)).

(** [m] is the mode of [col]: it occurs in [col], no value is more
    frequent, and it is the least of the most frequent values. *)
Definition is_mode (col : list Z) (m : Z) : Prop :=
  In m col /\
  (forall v, count v col <= count m col) /\
  (forall v, count v col = count m col -> m <= v).

(** [sum(weights)] *)
Definition sum_weights (ws : list Z) : Z := fold_right Z.add 0 ws.


(** Number of trees that [RandomForestClassifier(kwargs)] asks for. *)
Definition batch_size (kw : kwargs) : Z :=
  match kw_n_estimators kw with
  | Some n => n
  | None => 10
  end.

Section Vocabulary.

Context {Sample : Type}.

Abbreviation forest := (UpdatableRandomForestClassifier Sample).

Implicit Types (trees : list (estimator Sample)) (weights : list Z).

(** The weighted ballot of one sample, in the words of the specification:
    the answer of member [i] appears [weights[i]] times. *)
Definition ballot trees weights (x : Sample) : list Z :=
  flat_map (fun mw => repeat (predict (fst mw) x) (Z.to_nat (snd mw)))
           (combine trees weights).

(** The votes for [v]: the weights of the members that answer [v]. *)
Definition weighted_count trees weights (x : Sample) (v : Z) : Z :=
  fold_right Z.add 0
    (map (fun mw => if predict (fst mw) x =? v then snd mw else 0)
         (combine trees weights)).

(** All rows of [np.repeat(all_preds, weights, axis=0)]. *)
Definition repeated_rows trees weights (X : list Sample) : list (list Z) :=
  flat_map (fun rc => np.repeat_row (fst rc) (snd rc))
           (combine (map (fun e => map (predict e) X) trees) weights).

(** An initialized ensemble, as the data model of the specification has
    it: the forest is fitted and has members, there is one weight per
    member and every weight is at least one, the classes are the sorted
    distinct labels of the first fit, and every member answers with the
    index of one of these classes. *)
Record initialized (self : forest) (fa : fit_attrs Sample) : Prop := {
  init_fitted : fitted (super self) = Some fa;
  init_members : estimators_ fa <> [];
  init_lengths : length (estimators_ fa) = length (vote_weights self);
  init_weights : Forall (fun w => 1 <= w) (vote_weights self);
  init_classes : StronglySorted Z.lt (classes_ fa);
  init_domain : forall e x, In e (estimators_ fa) ->
                            0 <= predict e x < Z.of_nat (length (classes_ fa))
}.

(** The label a tree's answer stands for in the ensemble. *)
Definition predict_label (fa : fit_attrs Sample) (e : estimator Sample)
           (x : Sample) : Z :=
  class_label (classes_ fa) (predict e x).

(** The weighted ballot of labels: the label of member [i] for the sample
    appears [weights[i]] times. *)
Definition label_ballot (fa : fit_attrs Sample) (weights : list Z) (x : Sample)
  : list Z :=
  flat_map (fun mw => repeat (predict_label fa (fst mw) x) (Z.to_nat (snd mw)))
           (combine (estimators_ fa) weights).

(** The members of an ensemble: none before the first fit. *)
Definition members (self : forest) : list (estimator Sample) :=
  match fitted (super self) with
  | Some fa => estimators_ fa
  | None => []
  end.

(** The forest that [fit_new_data] trains on the new data. *)
Definition new_forest `{TreeLearner Sample} (kw : kwargs) (X : list Sample) (y : list Z)
  : result (RandomForestClassifier Sample) :=
  rfc <- RandomForestClassifier_init kw ;; RandomForestClassifier_fit rfc X y.

(** What holds of every state of the lifecycle: the forest is fitted, it
    counts as many trees as it has weights, and it has as many trees. *)
Definition consistent (s : forest) : Prop :=
  n_estimators (super s) = Z.of_nat (length (vote_weights s)) /\
  exists fa, fitted (super s) = Some fa /\
             length (estimators_ fa) = length (vote_weights s).

(** The states an ensemble goes through: constructed and fitted, then any
    number of calls of [fit_new_data] (whatever their outcome) and of
    successful calls of [fit]. *)
Inductive lifecycle `{TreeLearner Sample} : forest -> Prop :=
| lifecycle_fit (kw : kwargs) (X : list Sample) (y : list Z) (s0 s1 : forest) :
    __init__ kw = Ok s0 -> fit X y s0 = (Ok tt, s1) -> lifecycle s1
| lifecycle_fit_new_data (X : list Sample) (y : list Z) (w : Z) (kw : kwargs)
                         (s s' : forest) (r : result unit) :
    lifecycle s -> fit_new_data X y w kw s = (r, s') -> lifecycle s'
| lifecycle_refit (X : list Sample) (y : list Z) (s s' : forest) :
    lifecycle s -> fit X y s = (Ok tt, s') -> lifecycle s'.

(** [appended s s']: [s'] comes from [s] by calls of [fit_new_data]. *)
Inductive appended `{TreeLearner Sample} : forest -> forest -> Prop :=
| appended_refl (s : forest) : appended s s
| appended_step (X : list Sample) (y : list Z) (w : Z) (kw : kwargs)
                (s s' s'' : forest) (r : result unit) :
    fit_new_data X y w kw s = (r, s') -> appended s' s'' -> appended s s''.

(** An ensemble that can vote: fitted, with members, one weight of at
    least one for each of them.  Nothing is asked of the answers of the
    members. *)
Record votable (self : forest) (fa : fit_attrs Sample) : Prop := {
  vot_fitted : fitted (super self) = Some fa;
  vot_members : estimators_ fa <> [];
  vot_lengths : length (estimators_ fa) = length (vote_weights self);
  vot_weights : Forall (fun w => 1 <= w) (vote_weights self)
}.

(** Every member written as often as its weight says. *)
Definition replicate_members trees weights : list (estimator Sample) :=
  flat_map (fun mw => repeat (fst mw) (Z.to_nat (snd mw))) (combine trees weights).

(** [self] with other weights. *)
Definition with_weights (self : forest) (ws : list Z) : forest :=
  {| super := super self; vote_weights := ws |}.

(** [self] with other members. *)
Definition with_members (self : forest) (fa : fit_attrs Sample)
           (es : list (estimator Sample)) (ws : list Z) : forest :=
  {| super := {| n_estimators := Z.of_nat (length es);
                 random_state := random_state (super self);
                 fitted := Some {| classes_ := classes_ fa; estimators_ := es |} |};
     vote_weights := ws |}.

(** [raised x m] relates the old weight of a member to its new weight:
    higher or equal for a member that answers [m] on [x], the same for the
    others. *)
Definition raised (x : Sample) (m : Z) (mw : estimator Sample * Z) (w' : Z) : Prop :=
  if predict (fst mw) x =? m then snd mw <= w' else w' = snd mw.

End Vocabulary.

(** The keywords of the notebook's session: cell 4 constructs the forest,
    cell 5 appends a batch (with the vote weight 2). *)
Definition cell_4_kwargs : kwargs :=
  {| kw_init_vote_weight := Some 1; kw_n_estimators := Some 10;
     kw_random_state := Some 0 |}.

Definition cell_5_kwargs : kwargs :=
  {| kw_init_vote_weight := None; kw_n_estimators := Some 10;
     kw_random_state := None |}.

(** [l] is a most frequent value of [col]. *)
Definition most_frequent (col : list Z) (l : Z) : Prop :=
  In l col /\ forall v, count v col <= count l col.

(** Number of positions at which the predictions agree with the truth. *)
Fixpoint agreements (preds y : list Z) : nat :=
  match preds, y with
  | p :: preds', t :: y' => (if p =? t then 1 else 0) + agreements preds' y'
  | _, _ => 0
  end.

(** ** A small trainer and the scenarios of the specification

    Samples are numbers.  Tree [i] of a forest learns its answer by rote:
    the class index of training sample [i + random_state], counted
    cyclically. *)

Module Scenario.

Definition rote_tree (offset : nat) (y : list Z) (i : nat) : estimator Z :=
  {| predict := fun _ => nth ((i + offset) mod length y) y 0 |}.

Definition rote_grow (rs : option Z) (n : Z) (X : list Z) (y : list Z)
  : list (estimator Z) :=
  map (rote_tree (match rs with Some k => Z.to_nat k | None => 0 end) y)
      (seq 0 (Z.to_nat n)).

Lemma rote_grow_length (rs : option Z) (n : Z) (X y : list Z) :
  length (rote_grow rs n X y) = Z.to_nat n.
Proof. unfold rote_grow. rewrite length_map. apply length_seq. Qed.

Lemma rote_grow_range (rs : option Z) (n : Z) (X y : list Z)
      (e : estimator Z) (x : Z) :
  y <> [] -> In e (rote_grow rs n X y) -> In (predict e x) y.
Proof.
  intros Hy He. unfold rote_grow in He. apply in_map_iff in He as (i & <- & _).
  simpl. apply nth_In. apply Nat.mod_upper_bound.
  destruct y; [congruence | discriminate].
Qed.

#[global] Instance rote_learner : TreeLearner Z := {|
  grow_trees := rote_grow;
  grow_trees_length := rote_grow_length;
  grow_trees_range := rote_grow_range
|}.

Definition five_trees : kwargs :=
  {| kw_init_vote_weight := Some 1; kw_n_estimators := Some 5;
     kw_random_state := Some 0 |}.

Definition five_more (seed : Z) : kwargs :=
  {| kw_init_vote_weight := None; kw_n_estimators := Some 5;
     kw_random_state := Some seed |}.

(** The state of [m self] after a construction that succeeded. *)
Definition after (r : result (UpdatableRandomForestClassifier Z))
           (m : method unit) : result (UpdatableRandomForestClassifier Z) :=
  self <- r ;; Ok (snd (m self)).

(** Scenario B: five members of weight 1 whose answers are 0, 0, 0, 1, 1. *)
Definition scenario_B : result (UpdatableRandomForestClassifier Z) :=
  after (__init__ five_trees) (fit [10; 11; 12; 13; 14] [0; 0; 0; 1; 1]).

(** Scenario C: five more members of weight 2 that all answer 1. *)
Definition scenario_C : result (UpdatableRandomForestClassifier Z) :=
  after scenario_B
        (fit_new_data [20; 21; 22; 23; 24; 25] [0; 1; 1; 1; 1; 1] 2 (five_more 1)).

(** Scenario D: the same batch with weight 0. *)
Definition scenario_D : result (UpdatableRandomForestClassifier Z) :=
  after scenario_B
        (fit_new_data [20; 21; 22; 23; 24; 25] [0; 1; 1; 1; 1; 1] 0 (five_more 1)).

(** The value of a result that is known to be there. *)
Definition the (r : result (UpdatableRandomForestClassifier Z))
  : UpdatableRandomForestClassifier Z :=
  match r with
  | inr s => s
  | inl _ => {| super := {| n_estimators := 0; random_state := None;
                            fitted := None |};
                vote_weights := [] |}
  end.

(** A forest of four trees on the labels 5 and 7, two answers each. *)
Definition four_trees : kwargs :=
  {| kw_init_vote_weight := None; kw_n_estimators := Some 4;
     kw_random_state := None |}.

Definition scenario_tie : result (UpdatableRandomForestClassifier Z) :=
  after (__init__ four_trees) (fit [30; 31; 32; 33] [7; 5; 7; 5]).

(** The attributes of a forest that is known to be fitted. *)
Definition attrs (s : UpdatableRandomForestClassifier Z) : fit_attrs Z :=
  match fitted (super s) with
  | Some fa => fa
  | None => {| classes_ := []; estimators_ := [] |}
  end.

Definition rf_0 : UpdatableRandomForestClassifier Z :=
  Eval vm_compute in the (__init__ five_trees).
Definition rf_B : UpdatableRandomForestClassifier Z :=
  Eval vm_compute in the scenario_B.
Definition rf_C : UpdatableRandomForestClassifier Z :=
  Eval vm_compute in the scenario_C.
Definition rf_D : UpdatableRandomForestClassifier Z :=
  Eval vm_compute in the scenario_D.
Definition rf_tie : UpdatableRandomForestClassifier Z :=
  Eval vm_compute in the scenario_tie.

(** The batch of scenario C with the weight -1. *)
Definition rf_negative : UpdatableRandomForestClassifier Z :=
  Eval vm_compute in
    the (after scenario_B
               (fit_new_data [20; 21; 22; 23; 24; 25] [0; 1; 1; 1; 1; 1] (-1)
                             (five_more 1))).

(** Five trees that are constructed with the weight 0, and fitted. *)
Definition five_weightless : kwargs :=
  {| kw_init_vote_weight := Some 0; kw_n_estimators := Some 5;
     kw_random_state := Some 0 |}.

Definition rf_weightless_0 : UpdatableRandomForestClassifier Z :=
  Eval vm_compute in the (__init__ five_weightless).
Definition rf_weightless : UpdatableRandomForestClassifier Z :=
  Eval vm_compute in
    the (after (__init__ five_weightless)
               (fit [10; 11; 12; 13; 14] [0; 0; 0; 1; 1])).

(** One tree of weight 10 from data with the three labels 5, 6 and 7; it
    answers with the index 2. *)
Definition one_more (seed : Z) : kwargs :=
  {| kw_init_vote_weight := None; kw_n_estimators := Some 1;
     kw_random_state := Some seed |}.

Definition rf_three_classes : UpdatableRandomForestClassifier Z :=
  Eval vm_compute in
    the (after scenario_B (fit_new_data [20; 21; 22] [5; 6; 7] 10 (one_more 2))).

(** Five trees of weight 6 from data that only have the label 1. *)
Definition rf_one_label : UpdatableRandomForestClassifier Z :=
  Eval vm_compute in
    the (after scenario_B (fit_new_data [20; 21; 22] [1; 1; 1] 6 (five_more 0))).

(** The call of [fit_new_data] before the first fit, and a fit after it. *)
Definition rf_early : UpdatableRandomForestClassifier Z :=
  Eval vm_compute in
    snd (fit_new_data [20; 21] [0; 1] 2 (five_more 1) rf_0).
Definition rf_early_fitted : UpdatableRandomForestClassifier Z :=
  Eval vm_compute in snd (fit [10; 11; 12] [0; 1; 1] rf_early).

(** Scenario C fitted again. *)
Definition rf_refitted : UpdatableRandomForestClassifier Z :=
  Eval vm_compute in snd (fit [40; 41; 42] [3; 4; 4] rf_C).

(** The session of the notebook on small data. *)
Definition nb_0 : UpdatableRandomForestClassifier Z :=
  Eval vm_compute in the (__init__ cell_4_kwargs).
Definition nb_1 : UpdatableRandomForestClassifier Z :=
  Eval vm_compute in snd (fit [1; 2; 3] [0; 1; 2] nb_0).
Definition nb_2 : UpdatableRandomForestClassifier Z :=
  Eval vm_compute in snd (fit_new_data [4; 5] [1; 1] 2 cell_5_kwargs nb_1).

Definition fa_B : fit_attrs Z := Eval vm_compute in attrs rf_B.
Definition fa_C : fit_attrs Z := Eval vm_compute in attrs rf_C.
Definition fa_tie : fit_attrs Z := Eval vm_compute in attrs rf_tie.
Definition fa_three_classes : fit_attrs Z := Eval vm_compute in attrs rf_three_classes.

End Scenario.

(** * Facts about the array operations *)

Lemma bind_Ok {A B : Type} (r : result A) (k : A -> result B) (b : B) :
  (x <- r ;; k x) = Ok b -> exists a, r = Ok a /\ k a = Ok b.
Proof.
  destruct r as [e | a]; simpl; intros Hk.
  - discriminate.
  - exists a. split; [reflexivity | exact Hk].
Qed.

Lemma mapM_Ok {A B : Type} (f : A -> result B) (g : A -> B) (l : list A) :
  (forall a, In a l -> f a = Ok (g a)) -> mapM f l = Ok (map g l).
Proof.
  induction l as [| a l IH]; intros Hf; simpl.
  - reflexivity.
  - rewrite (Hf a (or_introl eq_refl)). simpl.
    rewrite IH by (intros; apply Hf; right; assumption).
    reflexivity.
Qed.

Lemma mapM_Forall2 {A B : Type} (f : A -> result B) (l : list A) (bs : list B) :
  mapM f l = Ok bs -> Forall2 (fun a b => f a = Ok b) l bs.
Proof.
  revert bs. induction l as [| a l IH]; simpl; intros bs Hm.
  - injection Hm as <-. constructor.
  - apply bind_Ok in Hm as (b & Hb & Hm).
    apply bind_Ok in Hm as (bs' & Hbs & Hm).
    injection Hm as <-. constructor; auto.
Qed.

(** ** [np.unique] *)

Lemma insert_In (v u : Z) (l : list Z) :
  In u (np.insert v l) <-> u = v \/ In u l.
Proof.
  induction l as [| w l IH]; simpl.
  - intuition.
  - destruct (Z.ltb_spec v w); [simpl; intuition |].
    destruct (Z.eqb_spec v w); simpl.
    + subst. intuition.
    + rewrite IH. intuition.
Qed.

Lemma insert_sorted (v : Z) (l : list Z) :
  StronglySorted Z.lt l -> StronglySorted Z.lt (np.insert v l).
Proof.
  induction 1 as [| w l Hs IH Hw]; simpl.
  - repeat constructor.
  - destruct (Z.ltb_spec v w).
    + constructor; [constructor; assumption |].
      constructor; [assumption |].
      eapply Forall_impl; [| exact Hw]. simpl. intros; lia.
    + destruct (Z.eqb_spec v w); [constructor; assumption |].
      constructor; [assumption |].
      apply Forall_forall. intros u Hu. apply insert_In in Hu as [-> | Hu].
      * lia.
      * rewrite Forall_forall in Hw. auto.
Qed.

Lemma unique_In (a : list Z) (v : Z) : In v (np.unique a) <-> In v a.
Proof.
  unfold np.unique. induction a as [| u a IH]; simpl.
  - reflexivity.
  - rewrite insert_In, IH. intuition.
Qed.

Lemma unique_sorted (a : list Z) : StronglySorted Z.lt (np.unique a).
Proof.
  unfold np.unique. induction a as [| u a IH]; simpl.
  - constructor.
  - apply insert_sorted, IH.
Qed.

(** In a strictly increasing list the position decides the order. *)
Lemma sorted_nth_lt (l : list Z) (i j : nat) :
  StronglySorted Z.lt l -> (i < j < length l)%nat -> nth i l 0 < nth j l 0.
Proof.
  intros Hs. revert i j. induction Hs as [| w l Hs IH Hw]; simpl; intros i j Hij.
  - lia.
  - destruct j as [| j]; [lia |]. destruct i as [| i].
    + rewrite Forall_forall in Hw. apply Hw, nth_In. lia.
    + apply IH. lia.
Qed.

Lemma index_of_range (v : Z) (l : list Z) :
  In v l -> 0 <= index_of v l < Z.of_nat (length l).
Proof.
  induction l as [| u l IH]; [simpl; tauto |].
  intros Hin. cbn [index_of length]. destruct (Z.eqb_spec v u); [lia |].
  destruct Hin as [-> | Hin]; [congruence |]. specialize (IH Hin). lia.
Qed.

(** ** [take] *)

Lemma take1_in_range (classes : list Z) (i : Z) :
  0 <= i < Z.of_nat (length classes) -> np.take1 classes i = Ok (class_label classes i).
Proof.
  intros Hi. unfold np.take1.
  destruct (Z.leb_spec 0 i); [| lia].
  destruct (Z.ltb_spec i (Z.of_nat (length classes))); [| lia].
  reflexivity.
Qed.

Lemma take1_In (classes : list Z) (i l : Z) :
  np.take1 classes i = Ok l -> In l classes.
Proof.
  unfold np.take1. set (n := Z.of_nat (length classes)).
  destruct (Z.leb_spec 0 i); destruct (Z.ltb_spec i n); simpl.
  - intros [= <-]. apply nth_In. lia.
  - destruct (Z.leb_spec (- n) i); destruct (Z.ltb_spec i 0); simpl;
      try discriminate. lia.
  - destruct (Z.leb_spec (- n) i); destruct (Z.ltb_spec i 0); simpl;
      try discriminate.
    intros [= <-]. apply nth_In. lia.
  - destruct (Z.leb_spec (- n) i); destruct (Z.ltb_spec i 0); simpl;
      try discriminate.
    intros [= <-]. apply nth_In. lia.
Qed.

(** ** Columns of a two-dimensional array *)

Lemma count_nonneg (v : Z) (col : list Z) : 0 <= count v col.
Proof. unfold count. lia. Qed.

Lemma count_pos_In (v : Z) (col : list Z) : 0 < count v col <-> In v col.
Proof.
  unfold count. rewrite (count_occ_In Z.eq_dec). lia.
Qed.

Lemma count_cons (v u : Z) (col : list Z) :
  count v (u :: col) = (if u =? v then 1 else 0) + count v col.
Proof.
  unfold count. simpl.
  destruct (Z.eq_dec u v); destruct (Z.eqb_spec u v); try contradiction; lia.
Qed.

Lemma count_app (v : Z) (c1 c2 : list Z) :
  count v (c1 ++ c2) = count v c1 + count v c2.
Proof. unfold count. rewrite count_occ_app. lia. Qed.

Lemma count_repeat (v u : Z) (n : nat) :
  count v (repeat u n) = if u =? v then Z.of_nat n else 0.
Proof.
  induction n as [| n IH].
  - simpl. destruct (u =? v); reflexivity.
  - cbn [repeat]. rewrite count_cons, IH. destruct (u =? v); lia.
Qed.

Lemma nth_map_combine {A B C : Type} (f : A * B -> C) (l1 : list A) (l2 : list B)
      (j : nat) (d : C) (d1 : A) (d2 : B) :
  (j < length l1)%nat -> (j < length l2)%nat ->
  nth j (map f (combine l1 l2)) d = f (nth j l1 d1, nth j l2 d2).
Proof.
  revert l2 j. induction l1 as [| a l1 IH]; intros [| b l2] [| j]; simpl;
    intros H1 H2; try lia.
  - reflexivity.
  - apply IH; lia.
Qed.

Lemma length_map_combine {A B C : Type} (f : A * B -> C) (l1 : list A) (l2 : list B) :
  length (map f (combine l1 l2)) = Nat.min (length l1) (length l2).
Proof. rewrite length_map. apply length_combine. Qed.

Lemma sum_axis0_length (ncols : nat) (t : list (list bool)) :
  rectangular ncols t -> length (np.sum_axis0 ncols t) = ncols.
Proof.
  induction 1 as [| row t Hrow Ht IH].
  - apply repeat_length.
  - change (np.sum_axis0 ncols (row :: t))
      with (np.add_row row (np.sum_axis0 ncols t)).
    unfold np.add_row. rewrite length_map_combine, IH, Hrow. lia.
Qed.

Lemma sum_axis0_nth (ncols : nat) (t : list (list bool)) (j : nat) :
  rectangular ncols t -> (j < ncols)%nat ->
  nth j (np.sum_axis0 ncols t) 0
  = Z.of_nat (length (filter (fun row => nth j row false) t)).
Proof.
  intros Ht Hj. induction Ht as [| row t Hrow Ht IH].
  - simpl. apply nth_repeat_lt. exact Hj.
  - change (np.sum_axis0 ncols (row :: t))
      with (np.add_row row (np.sum_axis0 ncols t)).
    unfold np.add_row.
    rewrite (nth_map_combine _ _ _ _ _ false 0);
      [| lia | rewrite sum_axis0_length by assumption; lia].
    cbn [fst snd filter]. rewrite IH.
    destruct (nth j row false); cbn [length]; lia.
Qed.

Lemma template_count (a : list (list Z)) (ncols j : nat) (score : Z) :
  rectangular ncols a -> (j < ncols)%nat ->
  Z.of_nat (length (filter (fun row => nth j row false)
                           (map (map (fun v => v =? score)) a)))
  = count score (column j a).
Proof.
  intros Ha Hj. induction Ha as [| row a Hrow Ha IH].
  - reflexivity.
  - cbn [map column filter]. fold (column j a). rewrite count_cons, <- IH.
    assert (E : nth j (map (fun v => v =? score) row) false
                = (nth j row 0 =? score)).
    { rewrite (nth_indep _ false (0 =? score)) by (rewrite length_map; lia).
      apply (map_nth (fun v => v =? score)). }
    rewrite E. destruct (nth j row 0 =? score); cbn [length]; lia.
Qed.

(** ** The loop of [mode], column by column *)

Lemma mode_step_length (a : list (list Z)) (ncols : nat) (st : list Z * list Z)
      (score : Z) :
  rectangular ncols a ->
  length (fst st) = ncols -> length (snd st) = ncols ->
  length (fst (stats.mode_step a ncols st score)) = ncols /\
  length (snd (stats.mode_step a ncols st score)) = ncols.
Proof.
  intros Ha H1 H2. unfold stats.mode_step. cbn [fst snd].
  assert (Hc : length (np.sum_axis0 ncols (map (map (fun v => v =? score)) a)) = ncols).
  { apply sum_axis0_length. unfold rectangular in *.
    rewrite Forall_map. eapply Forall_impl; [| exact Ha].
    intros row Hrow. simpl. rewrite length_map. exact Hrow. }
  unfold np.where_, np.greater, np.maximum.
  rewrite !length_map_combine, Hc, H1, H2. lia.
Qed.

Lemma mode_step_nth (a : list (list Z)) (ncols j : nat) (st : list Z * list Z)
      (score : Z) :
  rectangular ncols a -> (j < ncols)%nat ->
  length (fst st) = ncols -> length (snd st) = ncols ->
  (nth j (fst (stats.mode_step a ncols st score)) 0,
   nth j (snd (stats.mode_step a ncols st score)) 0)
  = col_step (column j a) (nth j (fst st) 0, nth j (snd st) 0) score.
Proof.
  intros Ha Hj H1 H2. unfold stats.mode_step, col_step. cbn [fst snd].
  set (t := map (map (fun v => v =? score)) a).
  assert (Ht : rectangular ncols t).
  { unfold rectangular, t in *. rewrite Forall_map.
    eapply Forall_impl; [| exact Ha].
    intros row Hrow. simpl. rewrite length_map. exact Hrow. }
  pose proof (sum_axis0_length ncols t Ht) as Hc.
  unfold np.where_, np.greater, np.maximum.
  rewrite (nth_map_combine _ _ _ _ _ false 0);
    [| rewrite length_map_combine; lia | lia].
  rewrite (nth_map_combine _ _ _ _ _ 0 0) by lia.
  rewrite (nth_map_combine _ _ _ _ _ 0 0) by lia.
  cbn [fst snd].
  rewrite (sum_axis0_nth ncols t j Ht Hj). unfold t.
  rewrite (template_count a ncols j score Ha Hj). reflexivity.
Qed.

Lemma mode_loop_nth (a : list (list Z)) (ncols j : nat) (scores : list Z)
      (st : list Z * list Z) :
  rectangular ncols a -> (j < ncols)%nat ->
  length (fst st) = ncols -> length (snd st) = ncols ->
  let st' := fold_left (stats.mode_step a ncols) scores st in
  length (fst st') = ncols /\
  (nth j (fst st') 0, nth j (snd st') 0)
  = fold_left (col_step (column j a)) scores (nth j (fst st) 0, nth j (snd st) 0).
Proof.
  intros Ha Hj. revert st. induction scores as [| s scores IH]; intros st H1 H2.
  - simpl. split; [assumption | reflexivity].
  - cbn [fold_left].
    destruct (mode_step_length a ncols st s Ha H1 H2) as [L1 L2].
    destruct (IH _ L1 L2) as [IH1 IH2].
    split; [exact IH1 |].
    rewrite IH2, (mode_step_nth a ncols j st s Ha Hj H1 H2). reflexivity.
Qed.

Lemma is_mode_unique (col : list Z) (m m' : Z) :
  is_mode col m -> is_mode col m' -> m = m'.
Proof.
  intros (_ & Hmax & Hmin) (_ & Hmax' & Hmin').
  assert (E : count m col = count m' col).
  { pose proof (Hmax m'). pose proof (Hmax' m). lia. }
  pose proof (Hmin m' (eq_sym E)). pose proof (Hmin' m E). lia.
Qed.

Lemma sorted_snoc (l : list Z) (s : Z) :
  StronglySorted Z.lt (l ++ [s]) ->
  StronglySorted Z.lt l /\ Forall (fun u => u < s) l.
Proof.
  induction l as [| u l IH]; simpl; intros Hs.
  - split; constructor.
  - inversion Hs as [| ? ? Hl Hu]; subst.
    destruct (IH Hl) as [IH1 IH2]. split.
    + constructor; [exact IH1 |].
      rewrite Forall_forall in *. intros v Hv. apply Hu, in_or_app. now left.
    + constructor; [| exact IH2].
      rewrite Forall_forall in Hu. apply Hu, in_or_app. right. now left.
Qed.

Lemma col_loop_spec (col scores : list Z) :
  StronglySorted Z.lt scores ->
  let st := fold_left (col_step col) scores (0, 0) in
  (forall v, In v scores -> count v col <= snd st) /\
  (snd st = 0 \/
   (In (fst st) scores /\ count (fst st) col = snd st /\ 0 < snd st /\
    forall v, In v scores -> count v col = snd st -> fst st <= v)).
Proof.
  induction scores as [| s l IH] using rev_ind; intros Hs.
  - simpl. split; [tauto | now left].
  - apply sorted_snoc in Hs as [Hl Hlt]. specialize (IH Hl).
    rewrite fold_left_app. cbn [fold_left].
    destruct (fold_left (col_step col) l (0, 0)) as [m c].
    cbn [fst snd] in IH. destruct IH as [Hle Hm].
    rewrite Forall_forall in Hlt.
    unfold col_step. cbn [fst snd].
    destruct (Z.ltb_spec c (count s col)) as [Hc | Hc].
    + rewrite Z.max_l by lia. split.
      * intros v Hv. apply in_app_or in Hv as [Hv | [<- | []]].
        -- specialize (Hle v Hv). lia.
        -- lia.
      * right. repeat split.
        -- apply in_or_app. right. now left.
        -- destruct Hm as [-> | (_ & _ & Hpos & _)];
             [pose proof (count_nonneg s col) |]; lia.
        -- intros v Hv Hv'. apply in_app_or in Hv as [Hv | [<- | []]].
           ++ specialize (Hle v Hv). lia.
           ++ lia.
    + rewrite Z.max_r by lia. split.
      * intros v Hv. apply in_app_or in Hv as [Hv | [<- | []]]; auto.
      * destruct Hm as [-> | (Hin & Hcnt & Hpos & Hmin)]; [now left | right].
        repeat split; auto.
        -- apply in_or_app. now left.
        -- intros v Hv Hv'. apply in_app_or in Hv as [Hv | [<- | []]]; auto.
           specialize (Hlt m Hin). lia.
Qed.

Lemma col_loop_mode (col scores : list Z) :
  col <> [] -> StronglySorted Z.lt scores -> incl col scores ->
  is_mode col (fst (fold_left (col_step col) scores (0, 0))).
Proof.
  intros Hne Hs Hincl.
  destruct (col_loop_spec col scores Hs) as [Hle Hm].
  destruct (fold_left (col_step col) scores (0, 0)) as [m c].
  cbn [fst snd] in *.
  destruct col as [| u col']; [congruence |]. set (col := u :: col') in *.
  assert (Hu : 0 < count u col) by (apply count_pos_In; now left).
  assert (Hus : In u scores) by (apply Hincl; now left).
  pose proof (Hle u Hus) as Hcu.
  destruct Hm as [-> | (Hin & Hcnt & Hpos & Hmin)]; [lia |].
  assert (Hmc : In m col) by (apply count_pos_In; lia).
  split; [exact Hmc |]. split.
  - intros v. destruct (in_dec Z.eq_dec v col) as [Hv | Hv].
    + rewrite Hcnt. apply Hle, Hincl, Hv.
    + pose proof (count_nonneg v col).
      destruct (Z.eq_dec (count v col) 0) as [-> | Hz]; [lia |].
      exfalso. apply Hv, count_pos_In. lia.
  - intros v Hv. apply Hmin; [| lia].
    apply Hincl, count_pos_In. lia.
Qed.

Lemma column_incl_concat (a : list (list Z)) (ncols j : nat) :
  rectangular ncols a -> (j < ncols)%nat -> incl (column j a) (concat a).
Proof.
  intros Ha Hj v Hv. unfold column in Hv. apply in_map_iff in Hv as (row & <- & Hrow).
  apply in_concat. exists row. split; [exact Hrow |].
  unfold rectangular in Ha. rewrite Forall_forall in Ha.
  apply nth_In. rewrite (Ha row Hrow). exact Hj.
Qed.

(** [mode] on a rectangular array with at least one row and one column:
    one row of results, the mode of every column. *)
Lemma mode_spec (a : list (list Z)) (ncols : nat) :
  a <> [] -> (0 < ncols)%nat -> rectangular ncols a ->
  exists ms, fst (stats.mode a) = [ms] /\ length ms = ncols /\
             forall j, (j < ncols)%nat -> is_mode (column j a) (nth j ms 0).
Proof.
  intros Hne Hpos Ha. destruct a as [| row a']; [congruence |].
  assert (Hrow : length row = ncols) by (inversion Ha; assumption).
  unfold stats.mode. cbv beta iota zeta. rewrite Hrow.
  destruct (Nat.eqb_spec ncols 0) as [-> | _]; [lia |].
  set (a := row :: a') in *.
  set (st := fold_left _ _ _). cbn [fst].
  exists (fst st). split; [reflexivity |].
  assert (Hz : length (repeat 0 ncols) = ncols) by apply repeat_length.
  split.
  - apply (mode_loop_nth a ncols 0 (np.unique (concat a))
                         (repeat 0 ncols, repeat 0 ncols) Ha Hpos Hz Hz).
  - intros j Hj.
    destruct (mode_loop_nth a ncols j (np.unique (concat a))
                            (repeat 0 ncols, repeat 0 ncols) Ha Hj Hz Hz)
      as [_ Hnth].
    fold st in Hnth. cbn [fst snd] in Hnth.
    rewrite nth_repeat_lt in Hnth by exact Hj.
    replace (nth j (fst st) 0)
      with (fst (fold_left (col_step (column j a)) (np.unique (concat a)) (0, 0)))
      by (rewrite <- Hnth; reflexivity).
    apply col_loop_mode.
    + unfold a, column. simpl. discriminate.
    + apply unique_sorted.
    + intros v Hv. apply unique_In.
      exact (column_incl_concat a ncols j Ha Hj v Hv).
Qed.

(** ** [np.repeat] along the rows *)

Lemma existsb_negative (ws : list Z) :
  Forall (fun w => 0 <= w) ws -> existsb (fun c => c <? 0) ws = false.
Proof.
  induction 1 as [| w ws Hw _ IH]; simpl.
  - reflexivity.
  - rewrite IH. destruct (Z.ltb_spec w 0); [lia | reflexivity].
Qed.

Lemma repeat_axis0_Ok (a : list (list Z)) (ws : list Z) :
  Forall (fun w => 0 <= w) ws -> length a = length ws ->
  np.repeat_axis0 a ws
  = Ok (flat_map (fun rc => np.repeat_row (fst rc) (snd rc)) (combine a ws)).
Proof.
  intros Hws Hlen. unfold np.repeat_axis0.
  rewrite (existsb_negative ws Hws).
  destruct ws as [| c [| c' ws]].
  - rewrite Hlen. reflexivity.
  - destruct a as [| r [| r' a]]; try discriminate. reflexivity.
  - rewrite <- Hlen, Nat.eqb_refl. reflexivity.
Qed.

Lemma column_app (j : nat) (a b : list (list Z)) :
  column j (a ++ b) = column j a ++ column j b.
Proof. apply map_app. Qed.

Lemma column_repeat_row (j : nat) (r : list Z) (c : Z) :
  column j (np.repeat_row r c) = repeat (nth j r 0) (Z.to_nat c).
Proof. unfold column, np.repeat_row. apply map_repeat. Qed.

Lemma rectangular_app {A : Type} (n : nat) (a b : list (list A)) :
  rectangular n a -> rectangular n b -> rectangular n (a ++ b).
Proof. intros Ha Hb. apply Forall_app. split; assumption. Qed.

Lemma rectangular_repeat_row (n : nat) (r : list Z) (c : Z) :
  length r = n -> rectangular n (np.repeat_row r c).
Proof.
  intros Hr. apply Forall_forall. intros r' Hr'.
  apply repeat_spec in Hr' as ->. exact Hr.
Qed.

Section Voting.

Context {Sample : Type}.

Implicit Types (members : list (estimator Sample)) (weights : list Z).

Lemma repeated_rows_rectangular members weights X :
  rectangular (length X) (repeated_rows members weights X).
Proof.
  unfold repeated_rows. revert weights.
  induction members as [| e members IH]; intros [| w weights]; simpl;
    try constructor.
  apply rectangular_app; [| apply IH].
  apply rectangular_repeat_row, length_map.
Qed.

Lemma repeated_rows_column members weights X (j : nat) (d : Sample) :
  (j < length X)%nat ->
  column j (repeated_rows members weights X) = ballot members weights (nth j X d).
Proof.
  intros Hj. unfold repeated_rows, ballot. revert weights.
  induction members as [| e members IH]; intros [| w weights]; simpl;
    try reflexivity.
  rewrite column_app, column_repeat_row, IH. f_equal. f_equal.
  rewrite (nth_indep _ 0 (predict e d)) by (rewrite length_map; exact Hj).
  apply map_nth.
Qed.

Lemma repeated_rows_length members weights X :
  Forall (fun w => 0 <= w) weights -> length members = length weights ->
  Z.of_nat (length (repeated_rows members weights X)) = sum_weights weights.
Proof.
  unfold repeated_rows. intros Hw. revert members.
  induction Hw as [| w weights Hw0 Hw IH]; intros [| e members]; simpl;
    try discriminate; [reflexivity |].
  intros [= Hlen]. rewrite length_app, Nat2Z.inj_add, (IH _ Hlen).
  unfold np.repeat_row. rewrite repeat_length. lia.
Qed.

Lemma ballot_length members weights x :
  Forall (fun w => 0 <= w) weights -> length members = length weights ->
  Z.of_nat (length (ballot members weights x)) = sum_weights weights.
Proof.
  unfold ballot. intros Hw. revert members.
  induction Hw as [| w weights Hw0 Hw IH]; intros [| e members]; simpl;
    try discriminate; [reflexivity |].
  intros [= Hlen]. rewrite length_app, Nat2Z.inj_add, (IH _ Hlen).
  rewrite repeat_length. lia.
Qed.

Lemma ballot_count members weights x (v : Z) :
  Forall (fun w => 0 <= w) weights ->
  count v (ballot members weights x) = weighted_count members weights x v.
Proof.
  unfold ballot, weighted_count. intros Hw. revert members.
  induction Hw as [| w weights Hw0 Hw IH]; intros [| e members]; simpl;
    try reflexivity.
  rewrite count_app, count_repeat, IH.
  destruct (predict e x =? v); lia.
Qed.

Lemma ballot_In members weights x (v : Z) :
  In v (ballot members weights x) -> exists e, In e members /\ predict e x = v.
Proof.
  unfold ballot. intros Hv. apply in_flat_map in Hv as ([e w] & Hew & Hv).
  apply repeat_spec in Hv. exists e. split; [| now symmetry].
  eapply in_combine_l, Hew.
Qed.

Lemma ballot_nonempty members weights x :
  members <> [] -> length members = length weights ->
  Forall (fun w => 1 <= w) weights -> ballot members weights x <> [].
Proof.
  intros Hne Hlen Hw. destruct members as [| e members]; [congruence |].
  destruct weights as [| w weights]; [discriminate |].
  inversion Hw; subst. unfold ballot. simpl.
  destruct (Z.to_nat w) eqn:E; [lia | discriminate].
Qed.

End Voting.

(** ** Class indices and labels *)

Lemma class_label_lt (classes : list Z) (u v : Z) :
  StronglySorted Z.lt classes ->
  0 <= u -> u < v -> v < Z.of_nat (length classes) ->
  class_label classes u < class_label classes v.
Proof.
  intros Hs Hu Huv Hv. unfold class_label. apply sorted_nth_lt; [exact Hs | lia].
Qed.

Lemma class_label_inj (classes : list Z) (u v : Z) :
  StronglySorted Z.lt classes ->
  0 <= u < Z.of_nat (length classes) -> 0 <= v < Z.of_nat (length classes) ->
  class_label classes u = class_label classes v -> u = v.
Proof.
  intros Hs Hu Hv E.
  destruct (Z.lt_trichotomy u v) as [H | [H | H]]; [| exact H |].
  - pose proof (class_label_lt classes u v Hs). lia.
  - pose proof (class_label_lt classes v u Hs). lia.
Qed.

Lemma count_map_inj (f : Z -> Z) (col : list Z) (v : Z) :
  (forall u, In u col -> f u = f v -> u = v) ->
  count (f v) (map f col) = count v col.
Proof.
  induction col as [| u col IH]; intros Hinj.
  - reflexivity.
  - cbn [map]. rewrite !count_cons, IH by (intros; apply Hinj; [now right | assumption]).
    destruct (Z.eqb_spec (f u) (f v)) as [E | E]; destruct (Z.eqb_spec u v) as [E' | E'];
      try reflexivity.
    + exfalso. apply E', Hinj; [now left | exact E].
    + subst. congruence.
Qed.

(** The mode of the class indices stands for the mode of the labels. *)
Lemma is_mode_class_label (classes col : list Z) (m : Z) :
  StronglySorted Z.lt classes ->
  (forall u, In u col -> 0 <= u < Z.of_nat (length classes)) ->
  is_mode col m ->
  is_mode (map (class_label classes) col) (class_label classes m).
Proof.
  intros Hs Hrange (Hin & Hmax & Hmin).
  set (f := class_label classes).
  assert (Hcount : forall v, In v col -> count (f v) (map f col) = count v col).
  { intros v Hv. apply count_map_inj. intros u Hu E.
    apply (class_label_inj classes); auto. }
  assert (Hout : forall l, ~ In l (map f col) -> count l (map f col) = 0).
  { intros l Hl. pose proof (count_nonneg l (map f col)).
    destruct (Z.eq_dec (count l (map f col)) 0) as [E | E]; [exact E |].
    exfalso. apply Hl, count_pos_In. lia. }
  assert (Hpos : 0 < count m col) by (apply count_pos_In; exact Hin).
  split; [apply in_map; exact Hin |]. split.
  - intros l. rewrite (Hcount m Hin).
    destruct (in_dec Z.eq_dec l (map f col)) as [Hl | Hl].
    + apply in_map_iff in Hl as (v & <- & Hv). rewrite (Hcount v Hv). apply Hmax.
    + rewrite (Hout l Hl). lia.
  - intros l. rewrite (Hcount m Hin). intros E.
    assert (Hl : In l (map f col)) by (apply count_pos_In; lia).
    apply in_map_iff in Hl as (v & <- & Hv). rewrite (Hcount v Hv) in E.
    pose proof (Hmin v E) as Hmv.
    destruct (Z.eq_dec m v) as [-> | Hne]; [lia |].
    pose proof (class_label_lt classes m v Hs). pose proof (Hrange m Hin).
    pose proof (Hrange v Hv). unfold f. lia.
Qed.

Lemma Forall2_of_nth {A B : Type} (P : A -> B -> Prop) (l1 : list A) (l2 : list B)
      (d1 : A) (d2 : B) :
  length l1 = length l2 ->
  (forall j, (j < length l1)%nat -> P (nth j l1 d1) (nth j l2 d2)) ->
  Forall2 P l1 l2.
Proof.
  revert l2. induction l1 as [| a l1 IH]; intros [| b l2]; simpl;
    intros Hlen Hnth; try discriminate.
  - constructor.
  - constructor.
    + apply (Hnth 0%nat). lia.
    + apply IH; [lia |]. intros j Hj. apply (Hnth (S j)). lia.
Qed.

Lemma Forall2_map_r {A B C : Type} (P : A -> C -> Prop) (f : B -> C)
      (l1 : list A) (l2 : list B) :
  Forall2 (fun a b => P a (f b)) l1 l2 -> Forall2 P l1 (map f l2).
Proof. induction 1; simpl; constructor; auto. Qed.

Lemma Forall2_In_r {A B : Type} (P : A -> B -> Prop) (l1 : list A) (l2 : list B)
      (b : B) :
  Forall2 P l1 l2 -> In b l2 -> exists a, In a l1 /\ P a b.
Proof.
  induction 1 as [| a b' l1 l2 Hab _ IH]; intros Hb.
  - destruct Hb.
  - destruct Hb as [<- | Hb].
    + exists a. split; [now left | exact Hab].
    + destruct (IH Hb) as (a' & Ha' & HP). exists a'. split; [now right | exact HP].
Qed.

(** * The ensemble *)

Section Ensemble.

Context {Sample : Type}.

Abbreviation forest := (UpdatableRandomForestClassifier Sample).

Lemma initialized_weights_nonneg (self : forest) (fa : fit_attrs Sample) :
  initialized self fa -> Forall (fun w => 0 <= w) (vote_weights self).
Proof.
  intros Hi. eapply Forall_impl; [| exact (init_weights _ _ Hi)].
  simpl. intros; lia.
Qed.

Lemma weighted_preds_initialized (self : forest) (fa : fit_attrs Sample)
      (X : list Sample) :
  initialized self fa ->
  weighted_preds self fa X
  = Ok (repeated_rows (estimators_ fa) (vote_weights self) X).
Proof.
  intros Hi. unfold weighted_preds, all_preds, repeated_rows.
  apply repeat_axis0_Ok.
  - exact (initialized_weights_nonneg self fa Hi).
  - rewrite length_map. exact (init_lengths _ _ Hi).
Qed.

Lemma label_ballot_map (fa : fit_attrs Sample) (weights : list Z) (x : Sample) :
  label_ballot fa weights x
  = map (class_label (classes_ fa)) (ballot (estimators_ fa) weights x).
Proof.
  unfold label_ballot, ballot. generalize (estimators_ fa) as members.
  intros members. revert weights.
  induction members as [| e members IH]; intros [| w weights]; simpl;
    try reflexivity.
  rewrite map_app, map_repeat, IH. reflexivity.
Qed.

(** [predict_votes] on an initialized ensemble: it returns, and the label
    at each position is the class of the mode of that sample's ballot. *)
Lemma predict_votes_modes (self : forest) (fa : fit_attrs Sample)
      (X : list Sample) :
  initialized self fa -> X <> [] ->
  exists modes,
    predict_votes self X = Ok (map (class_label (classes_ fa)) modes) /\
    Forall2 (fun x m => is_mode (ballot (estimators_ fa) (vote_weights self) x) m)
            X modes.
Proof.
  intros Hi HX. unfold predict_votes. rewrite (init_fitted _ _ Hi).
  destruct X as [| x0 X']; [congruence |]. set (X := x0 :: X') in *.
  change (check_array X) with (Ok X). cbn [bind Ok].
  rewrite (weighted_preds_initialized self fa X Hi). cbn [bind Ok].
  set (rows := repeated_rows (estimators_ fa) (vote_weights self) X).
  pose proof (initialized_weights_nonneg self fa Hi) as Hw0.
  assert (Hrows : rows <> []).
  { intros E.
    pose proof (repeated_rows_length (estimators_ fa) (vote_weights self) X Hw0
                                     (init_lengths _ _ Hi)) as Hlen.
    fold rows in Hlen. rewrite E in Hlen.
    pose proof (ballot_nonempty (estimators_ fa) (vote_weights self) x0
                                (init_members _ _ Hi) (init_lengths _ _ Hi)
                                (init_weights _ _ Hi)) as Hb.
    pose proof (ballot_length (estimators_ fa) (vote_weights self) x0 Hw0
                              (init_lengths _ _ Hi)) as Hbl.
    destruct (ballot (estimators_ fa) (vote_weights self) x0); [congruence |].
    simpl in Hlen, Hbl. lia. }
  destruct (mode_spec rows (length X) Hrows) as (ms & Hms & Hlen & Hmode).
  { simpl. lia. }
  { apply repeated_rows_rectangular. }
  rewrite Hms. cbn [first_row bind Ok].
  assert (HF : Forall2 (fun x m => is_mode (ballot (estimators_ fa)
                                                   (vote_weights self) x) m) X ms).
  { apply (Forall2_of_nth _ X ms x0 0); [now symmetry |].
    intros j Hj. specialize (Hmode j Hj).
    unfold rows in Hmode.
    rewrite (repeated_rows_column _ _ X j x0 Hj) in Hmode. exact Hmode. }
  exists ms. split; [| exact HF].
  unfold np.take. apply mapM_Ok. intros m Hm. apply take1_in_range.
  destruct (Forall2_In_r _ _ _ m HF Hm) as (x & _ & Hin & _).
  apply ballot_In in Hin as (e & He & <-).
  exact (init_domain _ _ Hi e x He).
Qed.

End Ensemble.

(** * Construction, fit and append *)

Section Lifecycle.

Context {Sample : Type} {learner : TreeLearner Sample}.

Abbreviation forest := (UpdatableRandomForestClassifier Sample).

Lemma init_Ok (kw : kwargs) (self : forest) :
  __init__ kw = Ok self ->
  0 <= batch_size kw /\
  n_estimators (super self) = batch_size kw /\
  fitted (super self) = None /\
  vote_weights self
  = repeat (match kw_init_vote_weight kw with Some w => w | None => 1 end)
           (Z.to_nat (batch_size kw)).
Proof.
  unfold __init__, RandomForestClassifier_init, np.repeat, batch_size.
  cbn [kw_init_vote_weight kw_n_estimators kw_random_state bind Ok n_estimators].
  destruct (Z.ltb_spec (match kw_n_estimators kw with Some n => n | None => 10 end) 0);
    cbn [bind Raise Ok]; [discriminate |].
  intros [= <-]. cbn. auto.
Qed.

Lemma RandomForestClassifier_fit_Ok (r r' : RandomForestClassifier Sample)
      (X : list Sample) (y : list Z) :
  RandomForestClassifier_fit r X y = Ok r' ->
  X <> [] /\ length X = length y /\ 0 < n_estimators r /\
  n_estimators r' = n_estimators r /\
  exists fa, fitted r' = Some fa /\
             classes_ fa = np.unique y /\
             length (estimators_ fa) = Z.to_nat (n_estimators r) /\
             forall e x, In e (estimators_ fa) ->
                         0 <= predict e x < Z.of_nat (length (classes_ fa)).
Proof.
  unfold RandomForestClassifier_fit.
  destruct X as [| x0 X']; [discriminate |]. set (X := x0 :: X').
  change (check_array X) with (Ok X). cbn [bind Ok].
  destruct (Nat.eqb_spec (length X) (length y)) as [Hlen | Hlen];
    cbn [negb]; [| discriminate].
  destruct (Z.leb_spec (n_estimators r) 0) as [Hn | Hn]; [discriminate |].
  intros [= <-]. cbn [n_estimators fitted].
  repeat split; try assumption; try discriminate.
  eexists. split; [reflexivity |]. cbn [classes_ estimators_].
  split; [reflexivity |]. split; [apply grow_trees_length |].
  intros e x He.
  assert (Hy : y <> []) by (destruct y; [discriminate Hlen | discriminate]).
  apply grow_trees_range with (x := x) in He.
  - apply in_map_iff in He as (v & <- & Hv).
    apply index_of_range, unique_In, Hv.
  - destruct y; [congruence | discriminate].
Qed.

Lemma RandomForestClassifier_fit_fails (r : RandomForestClassifier Sample)
      (X : list Sample) (y : list Z) :
  n_estimators r <= 0 -> fails (RandomForestClassifier_fit r X y).
Proof.
  intros Hn. unfold RandomForestClassifier_fit, fails.
  destruct X as [| x0 X']; [eexists; reflexivity |].
  cbn [check_array bind Ok].
  destruct (negb _); [eexists; reflexivity |].
  destruct (Z.leb_spec (n_estimators r) 0); [eexists; reflexivity | lia].
Qed.

Lemma RandomForestClassifier_fit_succeeds (r : RandomForestClassifier Sample)
      (X : list Sample) (y : list Z) :
  X <> [] -> length X = length y -> 0 < n_estimators r ->
  exists r', RandomForestClassifier_fit r X y = Ok r'.
Proof.
  intros HX Hlen Hn. unfold RandomForestClassifier_fit.
  destruct X as [| x0 X']; [congruence |].
  cbn [check_array bind Ok]. rewrite Hlen, Nat.eqb_refl. cbn [negb].
  destruct (Z.leb_spec (n_estimators r) 0); [lia |].
  eexists. reflexivity.
Qed.

Lemma new_forest_Ok (kw : kwargs) (X : list Sample) (y : list Z)
      (new_trees : RandomForestClassifier Sample) :
  new_forest kw X y = Ok new_trees ->
  0 < batch_size kw /\ n_estimators new_trees = batch_size kw /\
  exists fb, fitted new_trees = Some fb /\
             length (estimators_ fb) = Z.to_nat (batch_size kw) /\
             forall e x, In e (estimators_ fb) ->
                         0 <= predict e x < Z.of_nat (length (np.unique y)).
Proof.
  unfold new_forest, RandomForestClassifier_init, batch_size.
  destruct (kw_init_vote_weight kw); [discriminate |].
  cbn [bind Ok]. intros Hfit.
  apply RandomForestClassifier_fit_Ok in Hfit
    as (_ & _ & Hn & Hn' & fb & Hfb & Hcl & Hlen & Hdom).
  cbn [n_estimators] in *. repeat split; try assumption.
  exists fb. rewrite <- Hcl. repeat split; try assumption; apply Hdom; assumption.
Qed.

(** What one call of [fit_new_data] does, case by case. *)
Lemma fit_new_data_cases (X : list Sample) (y : list Z) (w : Z) (kw : kwargs)
      (self : forest) :
  match new_forest kw X y with
  | inl e => fit_new_data X y w kw self = (Raise e, self)
  | inr new_trees =>
    match fitted (super self), fitted new_trees with
    | Some fa, Some fb =>
      fit_new_data X y w kw self
      = (Ok tt,
         {| super := {| n_estimators := n_estimators (super self)
                                        + n_estimators new_trees;
                        random_state := random_state (super self);
                        fitted := Some {| classes_ := classes_ fa;
                                          estimators_ := estimators_ fa
                                                         ++ estimators_ fb |} |};
            vote_weights := vote_weights self
                            ++ repeat w (Z.to_nat (n_estimators new_trees)) |})
    | None, _ =>
      fit_new_data X y w kw self
      = (Raise AttributeError,
         set_n_estimators (n_estimators (super self) + n_estimators new_trees) self)
    | Some _, None => False
    end
  end.
Proof.
  unfold fit_new_data, mbind, call, getattr, setattr.
  fold (new_forest kw X y).
  destruct (new_forest kw X y) as [e | new_trees] eqn:Hnew; [reflexivity |].
  apply new_forest_Ok in Hnew as (Hpos & Hn & fb & Hfb & _ & _).
  rewrite Hfb. unfold np.repeat.
  destruct (Z.ltb_spec (n_estimators new_trees) 0); [lia |].
  cbn [Ok]. unfold get_estimators_.
  cbn [set_n_estimators super fitted vote_weights].
  destruct (fitted (super self)) as [fa |] eqn:Hfa; [| reflexivity].
  rewrite Hfb. cbn [Ok].
  unfold set_vote_weights, set_estimators_, set_n_estimators, np.concatenate.
  cbn [super fitted vote_weights n_estimators random_state].
  rewrite Hfa. reflexivity.
Qed.

End Lifecycle.

(** * Prediction by weighted vote *)

Lemma repeat_axis0_rectangular (n : nat) (a rows : list (list Z)) (ws : list Z) :
  rectangular n a -> np.repeat_axis0 a ws = Ok rows -> rectangular n rows.
Proof.
  unfold rectangular. rewrite !Forall_forall. intros Ha Hrows r Hr.
  unfold np.repeat_axis0 in Hrows.
  destruct (existsb _ ws); [discriminate |].
  assert (Hcomb : rows = flat_map (fun rc => np.repeat_row (fst rc) (snd rc))
                                  (combine a ws) -> In r a).
  { intros ->. apply in_flat_map in Hr as ([r' c] & Hrc & Hr).
    apply repeat_spec in Hr as ->. eapply in_combine_l, Hrc. }
  destruct ws as [| c [| c' ws]].
  - destruct (length [] =? length a)%nat; [| discriminate].
    injection Hrows as Hrows. auto.
  - injection Hrows as <-. apply in_flat_map in Hr as (r' & Hr' & Hr).
    apply repeat_spec in Hr as ->. auto.
  - destruct (length (c :: c' :: ws) =? length a)%nat; [| discriminate].
    injection Hrows as Hrows. auto.
Qed.

Section Prediction.

Context {Sample : Type}.

Abbreviation forest := (UpdatableRandomForestClassifier Sample).

Lemma all_preds_rectangular (fa : fit_attrs Sample) (X : list Sample) :
  rectangular (length X) (all_preds fa X).
Proof.
  unfold all_preds, rectangular. rewrite Forall_map. apply Forall_forall.
  intros e _. apply length_map.
Qed.

(** Whatever the state: when [predict_votes] returns, it returns one label
    per sample. *)
Lemma predict_votes_length (self : forest) (X : list Sample) (labels : list Z) :
  predict_votes self X = Ok labels -> length labels = length X.
Proof.
  unfold predict_votes. destruct (fitted (super self)) as [fa |]; [| discriminate].
  destruct X as [| x0 X']; [discriminate |]. set (X := x0 :: X').
  change (check_array X) with (Ok X). cbn [bind Ok].
  destruct (weighted_preds self fa X) as [e | rows] eqn:Hrows; [discriminate |].
  cbn [bind Ok].
  pose proof (repeat_axis0_rectangular _ _ _ _ (all_preds_rectangular fa X) Hrows)
    as Hrect.
  destruct rows as [| r rows']; [discriminate |].
  destruct (mode_spec (r :: rows') (length X)) as (ms & Hms & Hlen & _);
    [discriminate | simpl; lia | exact Hrect |].
  rewrite Hms. cbn [first_row bind Ok]. intros Htake.
  apply mapM_Forall2, Forall2_length in Htake. lia.
Qed.

(** On an initialized ensemble the label at each position is the mode of
    the weighted ballot of labels of that sample. *)
Lemma predict_votes_label_modes (self : forest) (fa : fit_attrs Sample)
      (X : list Sample) :
  initialized self fa -> X <> [] ->
  exists labels,
    predict_votes self X = Ok labels /\
    Forall2 (fun x l => is_mode (label_ballot fa (vote_weights self) x) l)
            X labels.
Proof.
  intros Hi HX.
  destruct (predict_votes_modes self fa X Hi HX) as (modes & Hp & HF).
  exists (map (class_label (classes_ fa)) modes). split; [exact Hp |].
  apply Forall2_map_r. eapply Forall2_impl; [| exact HF].
  intros x m Hm. cbn beta. rewrite label_ballot_map.
  apply is_mode_class_label; [exact (init_classes _ _ Hi) | | exact Hm].
  intros u Hu. apply ballot_In in Hu as (e & He & <-).
  exact (init_domain _ _ Hi e x He).
Qed.

Lemma ballot_of_answers (trees : list (estimator Sample)) (weights : list Z)
      (x : Sample) :
  ballot trees weights x
  = flat_map (fun vw => repeat (fst vw) (Z.to_nat (snd vw)))
             (combine (map (fun e => predict e x) trees) weights).
Proof.
  unfold ballot. revert weights.
  induction trees as [| e trees IH]; intros [| w weights]; simpl;
    try reflexivity.
  rewrite IH. reflexivity.
Qed.

End Prediction.

Lemma predict_votes_index_and_label {Sample : Type}
      (self : UpdatableRandomForestClassifier Sample) (fa : fit_attrs Sample)
      (X : list Sample) :
  initialized self fa -> X <> [] ->
  exists modes,
    predict_votes self X = Ok (map (class_label (classes_ fa)) modes) /\
    Forall2 (fun x m =>
               is_mode (ballot (estimators_ fa) (vote_weights self) x) m /\
               is_mode (label_ballot fa (vote_weights self) x)
                       (class_label (classes_ fa) m))
            X modes.
Proof.
  intros Hi HX.
  destruct (predict_votes_modes self fa X Hi HX) as (modes & Hp & HF).
  exists modes. split; [exact Hp |].
  eapply Forall2_impl; [| exact HF].
  intros x m Hm. cbn beta. split; [exact Hm |]. rewrite label_ballot_map.
  apply is_mode_class_label; [exact (init_classes _ _ Hi) | | exact Hm].
  intros u Hu. apply ballot_In in Hu as (e & He & <-).
  exact (init_domain _ _ Hi e x He).
Qed.

Lemma scenario_C_mode (m : Z) :
  is_mode (flat_map (fun vw : Z * Z => repeat (fst vw) (Z.to_nat (snd vw)))
                    (combine [0; 0; 0; 1; 1; 1; 1; 1; 1; 1]
                             [1; 1; 1; 1; 1; 2; 2; 2; 2; 2])) m ->
  m = 1.
Proof.
  intros (Hin & Hmax & _).
  assert (Hm : m = 0 \/ m = 1).
  { vm_compute in Hin. intuition congruence. }
  destruct Hm as [-> | ->]; [| reflexivity].
  specialize (Hmax 1). vm_compute in Hmax. exfalso. apply Hmax. reflexivity.
Qed.

(** C1. On an initialized ensemble and a non-empty sequence of samples,
    [predict_votes] returns one label per sample, in the order of the
    samples, and the label of a sample is a most frequent value of the
    weighted ballot in which the label of member [i] appears [weights[i]]
    times.  In scenario C (answers 0,0,0,1,1 with weight 1 and five answers
    1 with weight 2, classes 0 and 1) the label is 1. *)
Theorem predict_votes_weighted_mode {Sample : Type}
        (self : UpdatableRandomForestClassifier Sample) (fa : fit_attrs Sample)
        (X : list Sample) :
  initialized self fa -> X <> [] ->
  exists labels,
    predict_votes self X = Ok labels /\
    Forall2 (fun x l => most_frequent (label_ballot fa (vote_weights self) x) l)
            X labels /\
    (classes_ fa = [0; 1] ->
     vote_weights self = [1; 1; 1; 1; 1; 2; 2; 2; 2; 2] ->
     Forall2 (fun x l =>
                map (fun e => predict e x) (estimators_ fa)
                = [0; 0; 0; 1; 1; 1; 1; 1; 1; 1] -> l = 1)
             X labels).
Proof.
  intros Hi HX.
  destruct (predict_votes_index_and_label self fa X Hi HX) as (modes & Hp & HF).
  exists (map (class_label (classes_ fa)) modes). split; [exact Hp |]. split.
  - apply Forall2_map_r. eapply Forall2_impl; [| exact HF].
    intros x m (_ & Hin & Hmax & _). split; assumption.
  - intros Hcl Hws. apply Forall2_map_r. eapply Forall2_impl; [| exact HF].
    intros x m (Hm & _) Hanswers.
    rewrite ballot_of_answers, Hanswers, Hws in Hm.
    apply scenario_C_mode in Hm as ->. rewrite Hcl. reflexivity.
Qed.

(** C5. On an initialized ensemble, the label that [predict_votes] returns
    for a sample is a most frequent label of the weighted ballot, and it is
    below every other most frequent label: ties go to the lowest label. *)
Theorem predict_votes_tie_lowest {Sample : Type}
        (self : UpdatableRandomForestClassifier Sample) (fa : fit_attrs Sample)
        (X : list Sample) :
  initialized self fa -> X <> [] ->
  exists labels,
    predict_votes self X = Ok labels /\
    Forall2 (fun x l =>
               most_frequent (label_ballot fa (vote_weights self) x) l /\
               forall l', most_frequent (label_ballot fa (vote_weights self) x) l' ->
                          l <= l')
            X labels.
Proof.
  intros Hi HX.
  destruct (predict_votes_label_modes self fa X Hi HX) as (labels & Hp & HF).
  exists labels. split; [exact Hp |].
  eapply Forall2_impl; [| exact HF].
  intros x l (Hin & Hmax & Hmin). split; [split; assumption |].
  intros l' (Hin' & Hmax'). apply Hmin.
  pose proof (Hmax l'). pose proof (Hmax' l). lia.
Qed.

(** C4. On an initialized ensemble the array that [predict_votes] tallies
    has [sum(weights)] rows; its column for a sample is that sample's
    ballot, in which member [i] contributes [weights[i]] copies of its one
    answer, so the ballot has [sum(weights)] votes and the votes for a
    value are the weights of the members that answer it. *)
Theorem weighted_ballot_size {Sample : Type}
        (self : UpdatableRandomForestClassifier Sample) (fa : fit_attrs Sample)
        (X : list Sample) :
  initialized self fa ->
  exists votes,
    weighted_preds self fa X = Ok votes /\
    (X <> [] ->
     predict_votes self X
     = (modes <- first_row (fst (stats.mode votes)) ;; np.take (classes_ fa) modes)) /\
    Z.of_nat (length votes) = sum_weights (vote_weights self) /\
    forall (j : nat) (d : Sample), (j < length X)%nat ->
      let x := nth j X d in
      column j votes = ballot (estimators_ fa) (vote_weights self) x /\
      Z.of_nat (length (column j votes)) = sum_weights (vote_weights self) /\
      forall v, count v (column j votes)
                = weighted_count (estimators_ fa) (vote_weights self) x v.
Proof.
  intros Hi. pose proof (initialized_weights_nonneg self fa Hi) as Hw.
  pose proof (init_lengths _ _ Hi) as Hlen.
  exists (repeated_rows (estimators_ fa) (vote_weights self) X).
  split; [apply weighted_preds_initialized; exact Hi |].
  split.
  { intros HX. unfold predict_votes. rewrite (init_fitted _ _ Hi).
    destruct X as [| x0 X']; [congruence |].
    cbn [check_array bind Ok].
    rewrite (weighted_preds_initialized self fa (x0 :: X') Hi). reflexivity. }
  split; [apply repeated_rows_length; assumption |].
  intros j d Hj x. rewrite (repeated_rows_column _ _ X j d Hj). fold x.
  split; [reflexivity |]. split.
  - apply ballot_length; assumption.
  - intros v. apply ballot_count; assumption.
Qed.

(** * The life of an ensemble *)

Section Growth.

Context {Sample : Type} {learner : TreeLearner Sample}.

Abbreviation forest := (UpdatableRandomForestClassifier Sample).

Lemma fit_cases (X : list Sample) (y : list Z) (s : forest) :
  fit X y s
  = match RandomForestClassifier_fit (super s) X y with
    | inl e => (Raise e, s)
    | inr base => (Ok tt, {| super := base; vote_weights := vote_weights s |})
    end.
Proof.
  unfold fit, mbind, getattr, call, setattr. cbn [Ok].
  destruct (RandomForestClassifier_fit (super s) X y); reflexivity.
Qed.

Lemma fit_consistent (X : list Sample) (y : list Z) (s s' : forest) :
  n_estimators (super s) = Z.of_nat (length (vote_weights s)) ->
  fit X y s = (Ok tt, s') -> consistent s'.
Proof.
  intros Hn. rewrite fit_cases.
  destruct (RandomForestClassifier_fit (super s) X y) as [e | base] eqn:Hfit;
    [discriminate |].
  intros [= <-].
  apply RandomForestClassifier_fit_Ok in Hfit
    as (_ & _ & _ & Hn' & fa & Hfa & _ & Hlen & _).
  split; cbn [super vote_weights].
  - congruence.
  - exists fa. split; [exact Hfa |]. rewrite Hlen, Hn. apply Nat2Z.id.
Qed.

(** A successful append, spelled out. *)
Lemma fit_new_data_Ok (X : list Sample) (y : list Z) (w : Z) (kw : kwargs)
      (s s' : forest) :
  fit_new_data X y w kw s = (Ok tt, s') ->
  0 < batch_size kw /\
  exists fa batch,
    fitted (super s) = Some fa /\
    length batch = Z.to_nat (batch_size kw) /\
    (forall e x, In e batch ->
                 0 <= predict e x < Z.of_nat (length (np.unique y))) /\
    s' = {| super := {| n_estimators := n_estimators (super s) + batch_size kw;
                        random_state := random_state (super s);
                        fitted := Some {| classes_ := classes_ fa;
                                          estimators_ := estimators_ fa ++ batch |} |};
            vote_weights := vote_weights s
                            ++ repeat w (Z.to_nat (batch_size kw)) |}.
Proof.
  pose proof (fit_new_data_cases X y w kw s) as Hc.
  destruct (new_forest kw X y) as [e | new_trees] eqn:Hnew.
  - rewrite Hc. discriminate.
  - apply new_forest_Ok in Hnew as (Hpos & Hn & fb & Hfb & Hlen & Hdom).
    rewrite Hfb in Hc.
    destruct (fitted (super s)) as [fa |]; rewrite Hc; [| discriminate].
    intros [= <-]. split; [exact Hpos |].
    exists fa, (estimators_ fb). rewrite Hn. auto.
Qed.

(** A failed call on a fitted forest changes nothing. *)
Lemma fit_new_data_Raise (X : list Sample) (y : list Z) (w : Z) (kw : kwargs)
      (s s' : forest) (e : exn) :
  fitted (super s) <> None ->
  fit_new_data X y w kw s = (Raise e, s') -> s' = s.
Proof.
  intros Hf. pose proof (fit_new_data_cases X y w kw s) as Hc.
  destruct (new_forest kw X y) as [e' | new_trees].
  - rewrite Hc. intros [= _ <-]. reflexivity.
  - destruct (fitted (super s)) as [fa |]; [| congruence].
    destruct (fitted new_trees); [| contradiction].
    rewrite Hc. discriminate.
Qed.

Lemma fit_new_data_consistent (X : list Sample) (y : list Z) (w : Z) (kw : kwargs)
      (s s' : forest) (r : result unit) :
  consistent s -> fit_new_data X y w kw s = (r, s') -> consistent s'.
Proof.
  intros (Hn & fa & Hfa & Hlen) Hcall. destruct r as [e | []].
  - apply fit_new_data_Raise in Hcall as ->; [| congruence].
    split; [exact Hn | exists fa; auto].
  - apply fit_new_data_Ok in Hcall as (Hpos & fa' & batch & Hfa' & Hb & _ & ->).
    assert (fa' = fa) as -> by congruence.
    split; cbn [super vote_weights n_estimators fitted].
    + rewrite length_app, repeat_length. lia.
    + eexists. split; [reflexivity |]. cbn [estimators_].
      rewrite !length_app, repeat_length. lia.
Qed.

Lemma lifecycle_consistent (s : forest) : lifecycle s -> consistent s.
Proof.
  induction 1 as [kw X y s0 s1 Hinit Hfit
                 | X y w kw s s' r _ IH Hcall
                 | X y s s' _ IH Hfit].
  - apply init_Ok in Hinit as (Hpos & Hn & _ & Hws).
    apply (fit_consistent X y s0); [| exact Hfit].
    rewrite Hn, Hws, repeat_length. lia.
  - exact (fit_new_data_consistent X y w kw s s' r IH Hcall).
  - apply (fit_consistent X y s); [exact (proj1 IH) | exact Hfit].
Qed.

Lemma appended_classes (s s' : forest) (fa : fit_attrs Sample) :
  fitted (super s) = Some fa -> appended s s' ->
  exists fa', fitted (super s') = Some fa' /\ classes_ fa' = classes_ fa.
Proof.
  intros Hfa Happ. revert fa Hfa.
  induction Happ as [s | X y w kw s s' s'' r Hcall _ IH]; intros fa Hfa.
  - exists fa. auto.
  - destruct r as [e | []].
    + apply fit_new_data_Raise in Hcall as ->; [| congruence]. exact (IH fa Hfa).
    + apply fit_new_data_Ok in Hcall as (_ & fa0 & batch & Hfa0 & _ & _ & ->).
      assert (fa0 = fa) as -> by congruence.
      destruct (IH _ eq_refl) as (fa' & Hfa' & Hcl). exists fa'. auto.
Qed.

(** The first fit of an ensemble that was constructed with a weight of at
    least one initializes it. *)
Lemma fit_initialized (kw : kwargs) (X : list Sample) (y : list Z)
      (s0 s1 : forest) :
  __init__ kw = Ok s0 ->
  1 <= match kw_init_vote_weight kw with Some w => w | None => 1 end ->
  fit X y s0 = (Ok tt, s1) ->
  exists fa, initialized s1 fa /\ classes_ fa = np.unique y.
Proof.
  intros Hinit Hw. apply init_Ok in Hinit as (Hpos & Hn & _ & Hws).
  rewrite fit_cases.
  destruct (RandomForestClassifier_fit (super s0) X y) as [e | base] eqn:Hfit;
    [discriminate |].
  intros [= <-].
  apply RandomForestClassifier_fit_Ok in Hfit
    as (_ & _ & Hn0 & _ & fa & Hfa & Hcl & Hlen & Hdom).
  exists fa. split; [| exact Hcl].
  split; cbn [super vote_weights].
  - exact Hfa.
  - intros E. rewrite E in Hlen. simpl in Hlen. lia.
  - rewrite Hlen, Hws, repeat_length, Hn. reflexivity.
  - rewrite Hws. apply Forall_forall. intros w Hin.
    apply repeat_spec in Hin as ->. exact Hw.
  - rewrite Hcl. apply unique_sorted.
  - exact Hdom.
Qed.

(** An append with a weight of at least one, on data with no more classes
    than the first fit saw, keeps the ensemble initialized. *)
Lemma fit_new_data_initialized (X : list Sample) (y : list Z) (w : Z)
      (kw : kwargs) (s s' : forest) (fa : fit_attrs Sample) :
  initialized s fa -> 1 <= w ->
  (length (np.unique y) <= length (classes_ fa))%nat ->
  fit_new_data X y w kw s = (Ok tt, s') ->
  exists fa', initialized s' fa' /\ classes_ fa' = classes_ fa.
Proof.
  intros Hi Hw Hcl Hcall.
  apply fit_new_data_Ok in Hcall as (Hpos & fa0 & batch & Hfa0 & Hb & Hdom & ->).
  assert (fa0 = fa) as -> by (pose proof (init_fitted _ _ Hi); congruence).
  exists {| classes_ := classes_ fa; estimators_ := estimators_ fa ++ batch |}.
  split; [| reflexivity].
  split; cbn [super vote_weights fitted estimators_ classes_].
  - reflexivity.
  - intros E. apply app_eq_nil in E as [E _]. exact (init_members _ _ Hi E).
  - rewrite !length_app, repeat_length, Hb, (init_lengths _ _ Hi). reflexivity.
  - apply Forall_app. split; [exact (init_weights _ _ Hi) |].
    apply Forall_forall. intros w' Hin. apply repeat_spec in Hin as ->. exact Hw.
  - exact (init_classes _ _ Hi).
  - intros e x He. apply in_app_or in He as [He | He].
    + exact (init_domain _ _ Hi e x He).
    + specialize (Hdom e x He). lia.
Qed.

End Growth.

Lemma predict_votes_in_classes {Sample : Type}
      (self : UpdatableRandomForestClassifier Sample) (fa : fit_attrs Sample)
      (X : list Sample) (labels : list Z) :
  fitted (super self) = Some fa -> predict_votes self X = Ok labels ->
  Forall (fun l => In l (classes_ fa)) labels.
Proof.
  intros Hfa. unfold predict_votes. rewrite Hfa. intros Hp.
  apply bind_Ok in Hp as (X' & _ & Hp).
  apply bind_Ok in Hp as (rows & _ & Hp).
  apply bind_Ok in Hp as (modes & _ & Hp).
  apply mapM_Forall2 in Hp. induction Hp as [| m l modes' labels' Hml _ IH].
  - constructor.
  - constructor; [exact (take1_In _ _ _ Hml) | exact IH].
Qed.

(** C10. Whatever batches are appended after the first fit, every label
    that [predict_votes] returns is an element of the [classes_] of the
    first fit: the weighted mode is only used as an index into them. *)
Theorem predict_votes_within_classes {Sample : Type} {learner : TreeLearner Sample}
        (s s' : UpdatableRandomForestClassifier Sample) (fa : fit_attrs Sample)
        (X : list Sample) (labels : list Z) :
  fitted (super s) = Some fa -> appended s s' ->
  predict_votes s' X = Ok labels ->
  Forall (fun l => In l (classes_ fa)) labels.
Proof.
  intros Hfa Happ Hp.
  destruct (appended_classes s s' fa Hfa Happ) as (fa' & Hfa' & Hcl).
  rewrite <- Hcl. exact (predict_votes_in_classes s' fa' X labels Hfa' Hp).
Qed.

(** C3, as the code has it.  After the first fit, and after every later
    call of [fit_new_data] or [fit], the ensemble is fitted and has as many
    members as weights; a successful [fit_new_data] adds the size of the new
    batch to both. *)
Theorem lifecycle_lengths_agree {Sample : Type} {learner : TreeLearner Sample}
        (s : UpdatableRandomForestClassifier Sample) :
  lifecycle s ->
  fitted (super s) <> None /\
  length (members s) = length (vote_weights s) /\
  forall X y w kw s',
    fit_new_data X y w kw s = (Ok tt, s') ->
    0 < batch_size kw /\
    length (members s') = (length (members s) + Z.to_nat (batch_size kw))%nat /\
    length (vote_weights s')
    = (length (vote_weights s) + Z.to_nat (batch_size kw))%nat.
Proof.
  intros Hs. destruct (lifecycle_consistent s Hs) as (_ & fa & Hfa & Hlen).
  unfold members. rewrite Hfa. split; [discriminate |]. split; [exact Hlen |].
  intros X y w kw s' Hcall.
  apply fit_new_data_Ok in Hcall as (Hpos & fa' & batch & Hfa' & Hb & _ & ->).
  assert (fa' = fa) as -> by congruence.
  cbn [super fitted estimators_ vote_weights].
  rewrite !length_app, repeat_length, Hb. auto.
Qed.

(** C8. A successful [fit_new_data] leaves every member and every weight
    that was there at its place: below the old lengths the sequences after
    the call are the sequences before it. *)
Theorem fit_new_data_keeps_old {Sample : Type} {learner : TreeLearner Sample}
        (self self' : UpdatableRandomForestClassifier Sample)
        (fa : fit_attrs Sample) (X : list Sample) (y : list Z) (w : Z)
        (kw : kwargs) :
  fitted (super self) = Some fa ->
  fit_new_data X y w kw self = (Ok tt, self') ->
  exists fa',
    fitted (super self') = Some fa' /\
    (forall i, (i < length (estimators_ fa))%nat ->
               nth_error (estimators_ fa') i = nth_error (estimators_ fa) i) /\
    (forall i, (i < length (vote_weights self))%nat ->
               nth_error (vote_weights self') i = nth_error (vote_weights self) i) /\
    firstn (length (estimators_ fa)) (estimators_ fa') = estimators_ fa /\
    firstn (length (vote_weights self)) (vote_weights self') = vote_weights self.
Proof.
  intros Hfa Hcall.
  apply fit_new_data_Ok in Hcall as (_ & fa0 & batch & Hfa0 & _ & _ & ->).
  assert (fa0 = fa) as -> by congruence.
  eexists. split; [reflexivity |]. cbn [estimators_ vote_weights].
  repeat split.
  - intros i Hi. apply nth_error_app1. exact Hi.
  - intros i Hi. apply nth_error_app1. exact Hi.
  - rewrite firstn_app, Nat.sub_diag, firstn_all. cbn [firstn]. apply app_nil_r.
  - rewrite firstn_app, Nat.sub_diag, firstn_all. cbn [firstn]. apply app_nil_r.
Qed.

(** C2, as the code has it.  On a fitted ensemble a call of [fit_new_data]
    that fails leaves the state as it was, and a batch without trees makes
    it fail.  The weight is not looked at: with a batch of at least one
    tree and well-formed data the call succeeds for every weight, also for
    0 and below, and appends the batch with that weight. *)
Theorem fit_new_data_failure_and_weight {Sample : Type} {learner : TreeLearner Sample}
        (self : UpdatableRandomForestClassifier Sample) (fa : fit_attrs Sample)
        (X : list Sample) (y : list Z) (w : Z) (kw : kwargs) :
  fitted (super self) = Some fa ->
  (forall e self', fit_new_data X y w kw self = (Raise e, self') -> self' = self) /\
  (batch_size kw <= 0 ->
   exists e, fit_new_data X y w kw self = (Raise e, self)) /\
  (0 < batch_size kw -> kw_init_vote_weight kw = None ->
   X <> [] -> length X = length y ->
   exists self' fa',
     fit_new_data X y w kw self = (Ok tt, self') /\
     fitted (super self') = Some fa' /\
     length (estimators_ fa')
     = (length (estimators_ fa) + Z.to_nat (batch_size kw))%nat /\
     vote_weights self'
     = vote_weights self ++ repeat w (Z.to_nat (batch_size kw))).
Proof.
  intros Hfa. split; [| split].
  - intros e self' Hcall.
    apply (fit_new_data_Raise X y w kw self self' e); [congruence | exact Hcall].
  - intros Hn. pose proof (fit_new_data_cases X y w kw self) as Hc.
    destruct (new_forest kw X y) as [e | new_trees] eqn:Hnew.
    + exists e. exact Hc.
    + apply new_forest_Ok in Hnew as (Hpos & _). lia.
  - intros Hn Hkw HX Hlen.
    pose proof (fit_new_data_cases X y w kw self) as Hc.
    destruct (new_forest kw X y) as [e | new_trees] eqn:Hnew.
    + exfalso. unfold new_forest, RandomForestClassifier_init in Hnew.
      rewrite Hkw in Hnew. cbn [bind Ok] in Hnew.
      destruct (RandomForestClassifier_fit_succeeds
                  {| n_estimators := batch_size kw;
                     random_state := kw_random_state kw;
                     fitted := None |} X y HX Hlen Hn) as (r' & Hr').
      unfold batch_size in Hr'. rewrite Hr' in Hnew. discriminate.
    + apply new_forest_Ok in Hnew as (_ & Hnn & fb & Hfb & Hlb & _).
      rewrite Hfa, Hfb in Hc. rewrite Hc. do 2 eexists.
      split; [reflexivity |]. split; [reflexivity |].
      cbn [super fitted vote_weights estimators_].
      rewrite length_app, Hlb, Hnn. auto.
Qed.

(** * Scoring *)

Lemma equal_same_length (a b : list Z) :
  length a = length b ->
  np.equal a b = np.Elementwise (map (fun p : Z * Z => fst p =? snd p) (combine a b)).
Proof. intros Hlen. unfold np.equal. rewrite Hlen, Nat.eqb_refl. reflexivity. Qed.

Lemma equal_mismatch (a b : list Z) :
  length a <> length b -> length a <> 1%nat -> length b <> 1%nat ->
  np.equal a b = np.ScalarFalse.
Proof.
  intros Hab Ha Hb. unfold np.equal.
  destruct (Nat.eqb_spec (length a) (length b)) as [E | _]; [contradiction |].
  destruct a as [| u [| u' a]]; destruct b as [| v [| v' b]];
    simpl in *; congruence.
Qed.

Lemma agreements_filter (a b : list Z) :
  length (filter (fun c : bool => c)
                 (map (fun p : Z * Z => fst p =? snd p) (combine a b)))
  = agreements a b.
Proof.
  revert b. induction a as [| u a IH]; intros [| v b]; simpl; try reflexivity.
  rewrite <- IH. destruct (u =? v); reflexivity.
Qed.

Lemma agreements_le (a b : list Z) : (agreements a b <= length b)%nat.
Proof.
  revert b. induction a as [| u a IH]; intros [| v b]; simpl; try lia.
  specialize (IH b). destruct (u =? v); lia.
Qed.

Lemma agreements_refl (a : list Z) : agreements a a = length a.
Proof.
  induction a as [| u a IH]; simpl; [reflexivity |].
  rewrite Z.eqb_refl, IH. reflexivity.
Qed.

Lemma predict_votes_Ok_nonempty {Sample : Type}
      (self : UpdatableRandomForestClassifier Sample) (X : list Sample)
      (labels : list Z) :
  predict_votes self X = Ok labels -> X <> [].
Proof.
  unfold predict_votes. destruct (fitted (super self)); [| discriminate].
  destruct X; [discriminate | discriminate].
Qed.

(** C9. [score_votes] answers for the forest bound to the global name
    [rf]: whatever the receiver [self] is, the value is the share of the
    positions at which the predictions of [rf] agree with [y]. *)
Theorem score_votes_scores_global_rf {Sample : Type}
        (rf self : UpdatableRandomForestClassifier Sample) (X : list Sample)
        (y labels : list Z) :
  predict_votes rf X = Ok labels -> length y = length X ->
  score_votes (Some rf) self X y
  = Ok (Z.of_nat (agreements labels y) # Pos.of_nat (length y)).
Proof.
  intros Hp Hlen. unfold score_votes. rewrite Hp. cbn [bind Ok].
  pose proof (predict_votes_length rf X labels Hp) as Hl.
  pose proof (predict_votes_Ok_nonempty rf X labels Hp) as HX.
  rewrite equal_same_length by congruence.
  cbn [py_sum bind Ok]. rewrite agreements_filter.
  destruct (length y) eqn:Hy.
  - destruct X; [congruence | discriminate].
  - reflexivity.
Qed.

(** C7, as the code has it.  [score_votes] raises when there is no sample,
    when there is no true label, and when the numbers of samples and of
    labels differ and neither of them is one.  When they differ, one of
    them is one and there is a label, the comparison broadcasts: if the
    forest behind the global name predicts, a number is returned. *)
Theorem score_votes_raises {Sample : Type}
        (rf : option (UpdatableRandomForestClassifier Sample))
        (self : UpdatableRandomForestClassifier Sample) (X : list Sample)
        (y : list Z) :
  (X = [] \/ y = [] \/
   (length X <> length y /\ length X <> 1%nat /\ length y <> 1%nat) ->
   fails (score_votes rf self X y)) /\
  (forall rf0 labels,
     rf = Some rf0 -> predict_votes rf0 X = Ok labels ->
     length X <> length y -> length X = 1%nat \/ length y = 1%nat -> y <> [] ->
     exists q, score_votes rf self X y = Ok q).
Proof.
  split.
  - intros Hcase. unfold score_votes, fails.
    destruct rf as [rf |]; [| eexists; reflexivity].
    destruct (predict_votes rf X) as [e | labels] eqn:Hp;
      [eexists; reflexivity |].
    cbn [bind Ok].
    pose proof (predict_votes_length rf X labels Hp) as Hl.
    pose proof (predict_votes_Ok_nonempty rf X labels Hp) as HX.
    destruct Hcase as [-> | [-> | (Hne & HX1 & Hy1)]].
    + congruence.
    + destruct labels as [| p [| p' l]].
      * destruct X; [congruence | discriminate].
      * eexists. reflexivity.
      * eexists. reflexivity.
    + rewrite equal_mismatch by congruence. eexists. reflexivity.
  - intros rf0 labels -> Hp Hne Hone Hy. unfold score_votes. rewrite Hp.
    cbn [bind Ok].
    pose proof (predict_votes_length rf0 X labels Hp) as Hl.
    destruct Hone as [HX1 | Hy1].
    + destruct labels as [| p [| p' l]]; try (simpl in Hl; congruence).
      assert (Heq : np.equal [p] y = np.Elementwise (map (fun v => p =? v) y)).
      { unfold np.equal. destruct y as [| v [| v' y']]; reflexivity. }
      rewrite Heq. cbn [py_sum bind Ok].
      destruct y as [| v y']; [congruence |]. eexists. reflexivity.
    + destruct y as [| t [| t' y']]; try discriminate.
      assert (Heq : np.equal labels [t]
                    = np.Elementwise (map (fun u => u =? t) labels)).
      { unfold np.equal. destruct labels as [| u [| u' l]]; reflexivity. }
      rewrite Heq. eexists. reflexivity.
Qed.

(** * The scenarios *)

Module ScenarioFacts.
Import Scenario.

Ltac decide_members :=
  repeat match goal with
         | H : _ = _ \/ _ |- _ => destruct H as [<- | H]
         | H : False |- _ => destruct H
         end.

Lemma rf_B_initialized : initialized rf_B fa_B.
Proof.
  unfold rf_B, fa_B. split.
  - reflexivity.
  - discriminate.
  - reflexivity.
  - repeat constructor; lia.
  - repeat constructor.
  - intros e x He. cbn in He. decide_members; cbn; lia.
Qed.

Lemma rf_C_initialized : initialized rf_C fa_C.
Proof.
  unfold rf_C, fa_C. split.
  - reflexivity.
  - discriminate.
  - reflexivity.
  - repeat constructor; lia.
  - repeat constructor.
  - intros e x He. cbn in He. decide_members; cbn; lia.
Qed.

Lemma rf_tie_initialized : initialized rf_tie fa_tie.
Proof.
  unfold rf_tie, fa_tie. split.
  - reflexivity.
  - discriminate.
  - reflexivity.
  - repeat constructor; lia.
  - repeat constructor.
  - intros e x He. cbn in He. decide_members; cbn; lia.
Qed.

Lemma rf_B_lifecycle : lifecycle rf_B.
Proof.
  apply (lifecycle_fit five_trees [10; 11; 12; 13; 14] [0; 0; 0; 1; 1] rf_0 rf_B);
    reflexivity.
Qed.

Lemma rf_C_appended : appended rf_B rf_C.
Proof.
  apply (appended_step [20; 21; 22; 23; 24; 25] [0; 1; 1; 1; 1; 1] 2 (five_more 1)
                       rf_B rf_C rf_C (Ok tt)).
  - reflexivity.
  - apply appended_refl.
Qed.

(** Scenario A: ten members of weight 1 that all answer class 0. *)
Example scenario_A :
  exists s : UpdatableRandomForestClassifier Z,
    after (__init__ no_kwargs)
          (fit [1; 2; 3] [0; 0; 0]) = Ok s /\
    length (members s) = 10%nat /\
    vote_weights s = repeat 1 10 /\
    predict_votes s [4] = Ok [0].
Proof. eexists. repeat split; reflexivity. Qed.

(** Before the first fit there is no [estimators_]: [fit_new_data] raises,
    after it has already counted the new trees. *)
Example fit_new_data_before_fit :
  __init__ five_trees = Ok rf_0 /\
  fst (fit_new_data [20; 21] [0; 1] 2 (five_more 1) rf_0) = Raise AttributeError /\
  n_estimators (super (snd (fit_new_data [20; 21] [0; 1] 2 (five_more 1) rf_0)))
  = 10 /\
  length (vote_weights (snd (fit_new_data [20; 21] [0; 1] 2 (five_more 1) rf_0)))
  = 5%nat.
Proof. repeat split; reflexivity. Qed.

(** Scenario B: the answers 0, 0, 0, 1, 1 with weight 1 give the label 0. *)
Example scenario_B_label : predict_votes rf_B [5] = Ok [0].
Proof. reflexivity. Qed.

(** Scenario C: five more answers 1 of weight 2 turn the vote. *)
Example scenario_C_label :
  map (fun e => predict e 5) (members rf_C) = [0; 0; 0; 1; 1; 1; 1; 1; 1; 1] /\
  vote_weights rf_C = [1; 1; 1; 1; 1; 2; 2; 2; 2; 2] /\
  predict_votes rf_C [5] = Ok [1].
Proof. repeat split; reflexivity. Qed.

(** A tie between the labels 5 and 7 goes to 5. *)
Example tie_label :
  label_ballot fa_tie (vote_weights rf_tie) 8 = [7; 5; 7; 5] /\
  predict_votes rf_tie [8] = Ok [5].
Proof. split; reflexivity. Qed.

End ScenarioFacts.

(** * The theorems at the scenarios *)

Lemma predict_votes_weighted_mode_witness :
  initialized Scenario.rf_C Scenario.fa_C /\ [5] <> [] /\
  exists labels,
    predict_votes Scenario.rf_C [5] = Ok labels /\
    Forall2 (fun x l =>
               most_frequent
                 (label_ballot Scenario.fa_C (vote_weights Scenario.rf_C) x) l)
            [5] labels /\
    (classes_ Scenario.fa_C = [0; 1] ->
     vote_weights Scenario.rf_C = [1; 1; 1; 1; 1; 2; 2; 2; 2; 2] ->
     Forall2 (fun x l =>
                map (fun e => predict e x) (estimators_ Scenario.fa_C)
                = [0; 0; 0; 1; 1; 1; 1; 1; 1; 1] -> l = 1)
             [5] labels).
Proof.
  split; [exact ScenarioFacts.rf_C_initialized |].
  split; [discriminate |].
  apply (predict_votes_weighted_mode Scenario.rf_C Scenario.fa_C [5]).
  - exact ScenarioFacts.rf_C_initialized.
  - discriminate.
Defined.

Lemma predict_votes_tie_lowest_witness :
  initialized Scenario.rf_tie Scenario.fa_tie /\ [8] <> [] /\
  exists labels,
    predict_votes Scenario.rf_tie [8] = Ok labels /\
    Forall2 (fun x l =>
               most_frequent
                 (label_ballot Scenario.fa_tie (vote_weights Scenario.rf_tie) x) l /\
               forall l',
                 most_frequent
                   (label_ballot Scenario.fa_tie (vote_weights Scenario.rf_tie) x) l' ->
                 l <= l')
            [8] labels.
Proof.
  split; [exact ScenarioFacts.rf_tie_initialized |].
  split; [discriminate |].
  apply (predict_votes_tie_lowest Scenario.rf_tie Scenario.fa_tie [8]).
  - exact ScenarioFacts.rf_tie_initialized.
  - discriminate.
Defined.

Lemma weighted_ballot_size_witness :
  initialized Scenario.rf_C Scenario.fa_C /\
  exists votes,
    weighted_preds Scenario.rf_C Scenario.fa_C [5; 6] = Ok votes /\
    ([5; 6] <> [] ->
     predict_votes Scenario.rf_C [5; 6]
     = (modes <- first_row (fst (stats.mode votes)) ;;
        np.take (classes_ Scenario.fa_C) modes)) /\
    Z.of_nat (length votes) = sum_weights (vote_weights Scenario.rf_C) /\
    forall (j : nat) (d : Z), (j < length [5; 6])%nat ->
      let x := nth j [5; 6] d in
      column j votes
      = ballot (estimators_ Scenario.fa_C) (vote_weights Scenario.rf_C) x /\
      Z.of_nat (length (column j votes))
      = sum_weights (vote_weights Scenario.rf_C) /\
      forall v, count v (column j votes)
                = weighted_count (estimators_ Scenario.fa_C)
                                 (vote_weights Scenario.rf_C) x v.
Proof.
  split; [exact ScenarioFacts.rf_C_initialized |].
  apply (weighted_ballot_size Scenario.rf_C Scenario.fa_C [5; 6]).
  exact ScenarioFacts.rf_C_initialized.
Defined.

Lemma predict_votes_within_classes_witness :
  fitted (super Scenario.rf_B) = Some Scenario.fa_B /\
  appended Scenario.rf_B Scenario.rf_C /\
  predict_votes Scenario.rf_C [5] = Ok [1] /\
  Forall (fun l => In l (classes_ Scenario.fa_B)) [1].
Proof.
  split; [reflexivity |].
  split; [exact ScenarioFacts.rf_C_appended |].
  split; [reflexivity |].
  apply (predict_votes_within_classes (learner := Scenario.rote_learner)
           Scenario.rf_B Scenario.rf_C Scenario.fa_B [5] [1]).
  - reflexivity.
  - exact ScenarioFacts.rf_C_appended.
  - reflexivity.
Defined.

(** After construction there are ten weights and no member yet. *)
Lemma constructed_lengths_differ :
  exists s : UpdatableRandomForestClassifier Z,
    __init__ no_kwargs = Ok s /\
    fitted (super s) = None /\
    length (members s) = 0%nat /\
    length (vote_weights s) = 10%nat /\
    length (members s) <> length (vote_weights s).
Proof.
  eexists. split; [reflexivity |]. cbn. repeat split. discriminate.
Qed.

Lemma lifecycle_lengths_agree_witness :
  lifecycle Scenario.rf_B /\
  fitted (super Scenario.rf_B) <> None /\
  length (members Scenario.rf_B) = length (vote_weights Scenario.rf_B) /\
  forall X y w kw s',
    fit_new_data X y w kw Scenario.rf_B = (Ok tt, s') ->
    0 < batch_size kw /\
    length (members s')
    = (length (members Scenario.rf_B) + Z.to_nat (batch_size kw))%nat /\
    length (vote_weights s')
    = (length (vote_weights Scenario.rf_B) + Z.to_nat (batch_size kw))%nat.
Proof.
  split; [exact ScenarioFacts.rf_B_lifecycle |].
  apply (lifecycle_lengths_agree (learner := Scenario.rote_learner) Scenario.rf_B).
  exact ScenarioFacts.rf_B_lifecycle.
Defined.

Lemma fit_new_data_keeps_old_witness :
  fit_new_data [20; 21; 22; 23; 24; 25] [0; 1; 1; 1; 1; 1] 2 (Scenario.five_more 1)
               Scenario.rf_B = (Ok tt, Scenario.rf_C) /\
  exists fa',
    fitted (super Scenario.rf_C) = Some fa' /\
    (forall i, (i < length (estimators_ Scenario.fa_B))%nat ->
               nth_error (estimators_ fa') i
               = nth_error (estimators_ Scenario.fa_B) i) /\
    (forall i, (i < length (vote_weights Scenario.rf_B))%nat ->
               nth_error (vote_weights Scenario.rf_C) i
               = nth_error (vote_weights Scenario.rf_B) i) /\
    firstn (length (estimators_ Scenario.fa_B)) (estimators_ fa')
    = estimators_ Scenario.fa_B /\
    firstn (length (vote_weights Scenario.rf_B)) (vote_weights Scenario.rf_C)
    = vote_weights Scenario.rf_B.
Proof.
  split; [reflexivity |].
  apply (fit_new_data_keeps_old (learner := Scenario.rote_learner)
           Scenario.rf_B Scenario.rf_C Scenario.fa_B
           [20; 21; 22; 23; 24; 25] [0; 1; 1; 1; 1; 1] 2 (Scenario.five_more 1)).
  - reflexivity.
  - reflexivity.
Defined.

(** Scenario D in the code: the call with weight 0 succeeds, and the
    ensemble has five more members, of weight 0. *)
Lemma fit_new_data_accepts_weight_zero :
  initialized Scenario.rf_B Scenario.fa_B /\
  fit_new_data [20; 21; 22; 23; 24; 25] [0; 1; 1; 1; 1; 1] 0 (Scenario.five_more 1)
               Scenario.rf_B = (Ok tt, Scenario.rf_D) /\
  length (members Scenario.rf_B) = 5%nat /\
  length (members Scenario.rf_D) = 10%nat /\
  vote_weights Scenario.rf_B = [1; 1; 1; 1; 1] /\
  vote_weights Scenario.rf_D = [1; 1; 1; 1; 1; 0; 0; 0; 0; 0] /\
  Scenario.rf_D <> Scenario.rf_B.
Proof.
  split; [exact ScenarioFacts.rf_B_initialized |].
  repeat split; try reflexivity. discriminate.
Qed.

Lemma fit_new_data_failure_and_weight_witness :
  fitted (super Scenario.rf_B) = Some Scenario.fa_B /\
  (forall e self',
     fit_new_data [20; 21] [0; 1] 0 (Scenario.five_more 1) Scenario.rf_B
     = (Raise e, self') -> self' = Scenario.rf_B) /\
  (batch_size (Scenario.five_more 1) <= 0 ->
   exists e, fit_new_data [20; 21] [0; 1] 0 (Scenario.five_more 1) Scenario.rf_B
             = (Raise e, Scenario.rf_B)) /\
  (0 < batch_size (Scenario.five_more 1) ->
   kw_init_vote_weight (Scenario.five_more 1) = None ->
   [20; 21] <> [] -> length [20; 21] = length [0; 1] ->
   exists self' fa',
     fit_new_data [20; 21] [0; 1] 0 (Scenario.five_more 1) Scenario.rf_B
     = (Ok tt, self') /\
     fitted (super self') = Some fa' /\
     length (estimators_ fa')
     = (length (estimators_ Scenario.fa_B)
        + Z.to_nat (batch_size (Scenario.five_more 1)))%nat /\
     vote_weights self'
     = vote_weights Scenario.rf_B
       ++ repeat 0 (Z.to_nat (batch_size (Scenario.five_more 1)))).
Proof.
  split; [reflexivity |].
  apply (fit_new_data_failure_and_weight (learner := Scenario.rote_learner)
           Scenario.rf_B Scenario.fa_B [20; 21] [0; 1] 0 (Scenario.five_more 1)).
  reflexivity.
Defined.

(** C6. The receiver [rf_C] predicts the true label of the sample, so its
    own accuracy is 1; [score_votes] on it returns 0, the accuracy of the
    forest [rf_B] that the global name [rf] is bound to. *)
Theorem score_votes_ignores_receiver :
  predict_votes Scenario.rf_C [5] = Ok [1] /\
  predict_votes Scenario.rf_B [5] = Ok [0] /\
  score_votes (Some Scenario.rf_B) Scenario.rf_C [5] [1] = Ok (0 # 1) /\
  score_votes None Scenario.rf_C [5] [1] = Raise NameError.
Proof. repeat split; reflexivity. Qed.

Lemma score_votes_scores_global_rf_witness :
  predict_votes Scenario.rf_B [5; 6] = Ok [0; 0] /\
  length [0; 1] = length [5; 6] /\
  score_votes (Some Scenario.rf_B) Scenario.rf_C [5; 6] [0; 1] = Ok (1 # 2).
Proof.
  split; [reflexivity |]. split; [reflexivity |].
  apply (score_votes_scores_global_rf Scenario.rf_B Scenario.rf_C
           [5; 6] [0; 1] [0; 0]).
  - reflexivity.
  - reflexivity.
Defined.

(** Three samples and one label: the comparison broadcasts the label, and
    [score_votes] returns the number 3. *)
Lemma score_votes_one_label_broadcast :
  length [5; 6; 7] <> length [0] /\
  score_votes (Some Scenario.rf_B) Scenario.rf_B [5; 6; 7] [0] = Ok (3 # 1).
Proof. split; [discriminate | reflexivity]. Qed.

(** Scenario E: three samples and two labels; one sample and no label;
    one sample and three labels. *)
Lemma score_votes_raises_witness :
  fails (score_votes (Some Scenario.rf_B) Scenario.rf_B [5; 6; 7] [0; 1]) /\
  fails (score_votes (Some Scenario.rf_B) Scenario.rf_B [5] []) /\
  exists q, score_votes (Some Scenario.rf_B) Scenario.rf_B [5] [0; 1; 0] = Ok q.
Proof.
  split; [| split].
  - apply (proj1 (score_votes_raises (Some Scenario.rf_B) Scenario.rf_B
                                     [5; 6; 7] [0; 1])).
    right. right. repeat split; discriminate.
  - apply (proj1 (score_votes_raises (Some Scenario.rf_B) Scenario.rf_B [5] [])).
    right. left. reflexivity.
  - apply (proj2 (score_votes_raises (Some Scenario.rf_B) Scenario.rf_B
                                     [5] [0; 1; 0])
                 Scenario.rf_B [0]).
    + reflexivity.
    + reflexivity.
    + discriminate.
    + left. reflexivity.
    + discriminate.
Defined.

(** * Further properties of the four methods *)

(** ** The mode only depends on the counts *)

Lemma is_mode_ext (c1 c2 : list Z) (m : Z) :
  (forall v, count v c1 = count v c2) -> is_mode c1 m -> is_mode c2 m.
Proof.
  intros Hc (Hin & Hmax & Hmin). split; [| split].
  - apply count_pos_In. rewrite <- Hc. apply count_pos_In. exact Hin.
  - intros v. rewrite <- !Hc. apply Hmax.
  - intros v. rewrite <- !Hc. apply Hmin.
Qed.

Lemma modes_agree {A : Type} (B1 B2 : A -> list Z) (X : list A) (ms1 ms2 : list Z) :
  Forall2 (fun x m => is_mode (B1 x) m) X ms1 ->
  Forall2 (fun x m => is_mode (B2 x) m) X ms2 ->
  (forall x v, In x X -> count v (B1 x) = count v (B2 x)) ->
  ms1 = ms2.
Proof.
  intros H1. revert ms2. induction H1 as [| x m1 X ms1 Hm1 _ IH]; intros ms2 H2 Hc.
  - inversion H2. reflexivity.
  - inversion H2 as [| ? m2 ? ms2' Hm2 H2']; subst. f_equal.
    + apply (is_mode_unique (B2 x)); [| exact Hm2].
      apply (is_mode_ext (B1 x)); [| exact Hm1].
      intros v. apply Hc. now left.
    + apply IH; [exact H2' |]. intros x' v Hx'. apply Hc. now right.
Qed.

Lemma sum_permutation (l l' : list Z) :
  Permutation l l' -> fold_right Z.add 0 l = fold_right Z.add 0 l'.
Proof. induction 1; simpl; lia. Qed.

Lemma count_two_le (col : list Z) (u v : Z) :
  u <> v -> count u col + count v col <= Z.of_nat (length col).
Proof.
  intros Huv. induction col as [| w col IH].
  - simpl. unfold count. simpl. lia.
  - rewrite !count_cons. cbn [length].
    destruct (Z.eqb_spec w u); destruct (Z.eqb_spec w v); subst; try congruence; lia.
Qed.

Lemma count_le_length (col : list Z) (v : Z) : count v col <= Z.of_nat (length col).
Proof.
  induction col as [| w col IH].
  - unfold count. simpl. lia.
  - rewrite count_cons. cbn [length]. destruct (w =? v); lia.
Qed.

(** The mode is the value that has more than half of the votes, if there
    is one. *)
Lemma is_mode_majority (col : list Z) (m v : Z) :
  is_mode col m -> Z.of_nat (length col) < 2 * count v col -> m = v.
Proof.
  intros (_ & Hmax & _) Hv. destruct (Z.eq_dec m v) as [E | E]; [exact E |].
  pose proof (count_two_le col m v E). pose proof (Hmax v). lia.
Qed.

Lemma mapM_Raise {A B : Type} (f : A -> result B) (l : list A) (e0 : exn) :
  (forall a e, f a = Raise e -> e = e0) ->
  (exists a, In a l /\ fails (f a)) ->
  mapM f l = Raise e0.
Proof.
  intros Hall. induction l as [| a l IH]; intros (a0 & Hin & Hf).
  - destruct Hin.
  - simpl. destruct (f a) as [e | b] eqn:Hfa.
    + rewrite (Hall a e Hfa). reflexivity.
    + cbn [bind]. destruct Hin as [-> | Hin].
      * destruct Hf as (e & He). unfold Raise in He. congruence.
      * rewrite IH by (exists a0; auto). reflexivity.
Qed.

Lemma take1_Raise (classes : list Z) (i : Z) (e : exn) :
  np.take1 classes i = Raise e -> e = IndexError.
Proof.
  unfold np.take1. destruct (_ && _); [discriminate |].
  destruct (_ && _); [discriminate |]. intros [= <-]. reflexivity.
Qed.

Lemma take1_outside (classes : list Z) (i : Z) :
  Z.of_nat (length classes) <= i \/ i < - Z.of_nat (length classes) ->
  np.take1 classes i = Raise IndexError.
Proof.
  intros Hi. unfold np.take1.
  destruct (Z.leb_spec 0 i); destruct (Z.ltb_spec i (Z.of_nat (length classes)));
    cbn [andb]; try lia;
    destruct (Z.leb_spec (- Z.of_nat (length classes)) i);
    destruct (Z.ltb_spec i 0); cbn [andb]; try lia; reflexivity.
Qed.

Lemma existsb_negative_false (ws : list Z) :
  existsb (fun c => c <? 0) ws = false -> Forall (fun w => 0 <= w) ws.
Proof.
  induction ws as [| w ws IH]; simpl; intros H.
  - constructor.
  - apply orb_false_iff in H as [Hw Hws]. constructor; [| exact (IH Hws)].
    destruct (Z.ltb_spec w 0); [discriminate | assumption].
Qed.

Lemma repeat_axis0_negative (a : list (list Z)) (ws : list Z) (w : Z) :
  In w ws -> w < 0 -> np.repeat_axis0 a ws = Raise ValueError.
Proof.
  intros Hin Hw. unfold np.repeat_axis0.
  assert (E : existsb (fun c => c <? 0) ws = true).
  { apply existsb_exists. exists w. split; [exact Hin |].
    destruct (Z.ltb_spec w 0); [reflexivity | lia]. }
  rewrite E. reflexivity.
Qed.

Lemma flat_map_nil {A B : Type} (f : A -> list B) (l : list A) :
  (forall a, In a l -> f a = []) -> flat_map f l = [].
Proof.
  induction l as [| a l IH]; intros Hf; simpl.
  - reflexivity.
  - rewrite (Hf a (or_introl eq_refl)), IH by (intros; apply Hf; now right).
    reflexivity.
Qed.

Lemma combine_app_same {A B : Type} (l1 l2 : list A) (l1' l2' : list B) :
  length l1 = length l1' ->
  combine (l1 ++ l2) (l1' ++ l2') = combine l1 l1' ++ combine l2 l2'.
Proof.
  revert l1'. induction l1 as [| a l1 IH]; intros [| b l1']; simpl;
    intros Hlen; try discriminate.
  - reflexivity.
  - rewrite IH by lia. reflexivity.
Qed.

Section MorePrediction.

Context {Sample : Type}.

Abbreviation forest := (UpdatableRandomForestClassifier Sample).

Lemma initialized_votable (self : forest) (fa : fit_attrs Sample) :
  initialized self fa -> votable self fa.
Proof.
  intros Hi. split.
  - exact (init_fitted _ _ Hi).
  - exact (init_members _ _ Hi).
  - exact (init_lengths _ _ Hi).
  - exact (init_weights _ _ Hi).
Qed.

Lemma votable_weights_nonneg (self : forest) (fa : fit_attrs Sample) :
  votable self fa -> Forall (fun w => 0 <= w) (vote_weights self).
Proof.
  intros Hv. eapply Forall_impl; [| exact (vot_weights _ _ Hv)].
  simpl. intros; lia.
Qed.

(** The tally of an ensemble that can vote: [predict_votes] looks up, in
    [classes_], the mode of each sample's ballot. *)
Lemma predict_votes_take (self : forest) (fa : fit_attrs Sample) (X : list Sample) :
  votable self fa -> X <> [] ->
  exists modes,
    predict_votes self X = np.take (classes_ fa) modes /\
    Forall2 (fun x m => is_mode (ballot (estimators_ fa) (vote_weights self) x) m)
            X modes.
Proof.
  intros Hv HX. unfold predict_votes. rewrite (vot_fitted _ _ Hv).
  destruct X as [| x0 X']; [congruence |]. set (X := x0 :: X') in *.
  change (check_array X) with (Ok X). cbn [bind Ok].
  pose proof (votable_weights_nonneg self fa Hv) as Hw0.
  unfold weighted_preds, all_preds.
  rewrite repeat_axis0_Ok;
    [| exact Hw0 | rewrite length_map; exact (vot_lengths _ _ Hv)].
  cbn [bind Ok]. fold (repeated_rows (estimators_ fa) (vote_weights self) X).
  set (rows := repeated_rows (estimators_ fa) (vote_weights self) X).
  assert (Hrows : rows <> []).
  { intros E.
    pose proof (repeated_rows_length (estimators_ fa) (vote_weights self) X Hw0
                                     (vot_lengths _ _ Hv)) as Hlen.
    fold rows in Hlen. rewrite E in Hlen.
    pose proof (ballot_nonempty (estimators_ fa) (vote_weights self) x0
                                (vot_members _ _ Hv) (vot_lengths _ _ Hv)
                                (vot_weights _ _ Hv)) as Hb.
    pose proof (ballot_length (estimators_ fa) (vote_weights self) x0 Hw0
                              (vot_lengths _ _ Hv)) as Hbl.
    destruct (ballot (estimators_ fa) (vote_weights self) x0); [congruence |].
    simpl in Hlen, Hbl. lia. }
  destruct (mode_spec rows (length X) Hrows) as (ms & Hms & Hlen & Hmode).
  { simpl. lia. }
  { apply repeated_rows_rectangular. }
  rewrite Hms. cbn [first_row bind Ok].
  exists ms. split; [reflexivity |].
  apply (Forall2_of_nth _ X ms x0 0); [now symmetry |].
  intros j Hj. specialize (Hmode j Hj). unfold rows in Hmode.
  rewrite (repeated_rows_column _ _ X j x0 Hj) in Hmode. exact Hmode.
Qed.

(** Two ensembles with the same classes and the same weighted predictions
    predict the same. *)
Lemma predict_votes_congr (s1 s2 : forest) (fa1 fa2 : fit_attrs Sample)
      (X : list Sample) :
  fitted (super s1) = Some fa1 -> fitted (super s2) = Some fa2 ->
  classes_ fa1 = classes_ fa2 ->
  weighted_preds s1 fa1 X = weighted_preds s2 fa2 X ->
  predict_votes s1 X = predict_votes s2 X.
Proof.
  intros H1 H2 Hcl Hw. unfold predict_votes. rewrite H1, H2.
  destruct X as [| x0 X']; [reflexivity |].
  cbn [check_array bind Ok]. rewrite Hcl, Hw. reflexivity.
Qed.

(** Two initialized ensembles with the same classes, whose ballots give
    every answer the same number of votes, predict the same. *)
Lemma predict_votes_same_counts (s1 s2 : forest) (fa1 fa2 : fit_attrs Sample)
      (X : list Sample) :
  initialized s1 fa1 -> initialized s2 fa2 -> classes_ fa1 = classes_ fa2 ->
  (forall x v, In x X ->
     count v (ballot (estimators_ fa1) (vote_weights s1) x)
     = count v (ballot (estimators_ fa2) (vote_weights s2) x)) ->
  predict_votes s1 X = predict_votes s2 X.
Proof.
  intros H1 H2 Hcl Hc. destruct X as [| x0 X'].
  - unfold predict_votes. rewrite (init_fitted _ _ H1), (init_fitted _ _ H2).
    reflexivity.
  - destruct (predict_votes_modes s1 fa1 (x0 :: X') H1) as (ms1 & Hp1 & HF1);
      [discriminate |].
    destruct (predict_votes_modes s2 fa2 (x0 :: X') H2) as (ms2 & Hp2 & HF2);
      [discriminate |].
    rewrite Hp1, Hp2, Hcl. f_equal. f_equal.
    exact (modes_agree _ _ _ ms1 ms2 HF1 HF2 Hc).
Qed.

End MorePrediction.

(** ** Weights that are zero or negative *)

Lemma zero_rows (b : list (list Z)) (n : nat) :
  flat_map (fun rc : list Z * Z => np.repeat_row (fst rc) (snd rc))
           (combine b (repeat 0 n)) = [].
Proof.
  apply flat_map_nil. intros [r c] Hin.
  apply in_combine_r, repeat_spec in Hin. cbn [fst snd] in *. subst. reflexivity.
Qed.

Lemma existsb_negative_zeros (n : nat) :
  existsb (fun c => c <? 0) (repeat 0 n) = false.
Proof.
  apply existsb_negative. apply Forall_forall. intros w Hw.
  apply repeat_spec in Hw. lia.
Qed.

Lemma repeat_axis0_zeros (a : list (list Z)) (n : nat) :
  length a = n -> np.repeat_axis0 a (repeat 0 n) = Ok [].
Proof.
  intros Hlen. unfold np.repeat_axis0. rewrite existsb_negative_zeros.
  destruct n as [| [| n]]; cbn [repeat].
  - destruct a; [reflexivity | discriminate].
  - f_equal. apply flat_map_nil. reflexivity.
  - change (0 :: 0 :: repeat 0 n) with (repeat 0 (S (S n))).
    rewrite repeat_length, Hlen, Nat.eqb_refl. f_equal. apply zero_rows.
Qed.

Lemma repeat_axis0_app_zeros (a b : list (list Z)) (ws : list Z) (n : nat) :
  length a = length ws -> length b = S n ->
  np.repeat_axis0 (a ++ b) (ws ++ repeat 0 (S n)) = np.repeat_axis0 a ws.
Proof.
  intros Ha Hb. unfold np.repeat_axis0.
  rewrite existsb_app, existsb_negative_zeros, orb_false_r.
  destruct (existsb (fun c => c <? 0) ws); [reflexivity |].
  assert (Hlen : Nat.eqb (length (ws ++ repeat 0 (S n))) (length (a ++ b)) = true).
  { rewrite !length_app, repeat_length, Ha, Hb. apply Nat.eqb_refl. }
  assert (Hrows : flat_map (fun rc : list Z * Z => np.repeat_row (fst rc) (snd rc))
                           (combine (a ++ b) (ws ++ repeat 0 (S n)))
                  = flat_map (fun rc : list Z * Z => np.repeat_row (fst rc) (snd rc))
                             (combine a ws)).
  { rewrite combine_app_same by exact Ha.
    rewrite flat_map_app, zero_rows. apply app_nil_r. }
  destruct ws as [| c [| c' ws]].
  - destruct a; [| discriminate]. cbn [app repeat] in *.
    destruct n as [| n]; cbn [repeat] in *.
    + cbn. f_equal. apply flat_map_nil. reflexivity.
    + rewrite Hlen, Hrows. reflexivity.
  - destruct a as [| r [| r' a]]; try discriminate. cbn [app repeat] in *.
    rewrite Hlen, Hrows. reflexivity.
  - cbn [app repeat] in *. rewrite Hlen, Hrows, <- Ha, Nat.eqb_refl. reflexivity.
Qed.

(** X1. When [predict_votes] returns, the forest is fitted, there was at
    least one sample, no weight is negative, and there is one label for
    each sample; this holds in every state of the object. *)
Theorem predict_votes_returns_only_if {Sample : Type}
        (self : UpdatableRandomForestClassifier Sample) (X : list Sample)
        (labels : list Z) :
  predict_votes self X = Ok labels ->
  X <> [] /\
  fitted (super self) <> None /\
  Forall (fun w => 0 <= w) (vote_weights self) /\
  length labels = length X.
Proof.
  intros Hp. split; [exact (predict_votes_Ok_nonempty self X labels Hp) |].
  split; [| split; [| exact (predict_votes_length self X labels Hp)]].
  - unfold predict_votes in Hp. destruct (fitted (super self)); discriminate.
  - unfold predict_votes in Hp. destruct (fitted (super self)) as [fa |];
      [| discriminate].
    apply bind_Ok in Hp as (X' & _ & Hp). apply bind_Ok in Hp as (rows & Hrows & _).
    unfold weighted_preds, np.repeat_axis0 in Hrows.
    destruct (existsb (fun c => c <? 0) (vote_weights self)) eqn:E;
      [discriminate |].
    exact (existsb_negative_false _ E).
Qed.

(** X2. [fit_new_data] accepts a negative weight; from then on every call
    of [predict_votes] raises ValueError. *)
Theorem negative_weight_breaks_predict {Sample : Type} {learner : TreeLearner Sample}
        (s s' : UpdatableRandomForestClassifier Sample) (X : list Sample)
        (y : list Z) (w : Z) (kw : kwargs) :
  w < 0 -> fit_new_data X y w kw s = (Ok tt, s') ->
  forall X', predict_votes s' X' = Raise ValueError.
Proof.
  intros Hw Hcall X'.
  apply fit_new_data_Ok in Hcall as (Hpos & fa & batch & Hfa & _ & _ & ->).
  unfold predict_votes. cbn [super fitted vote_weights].
  destruct X' as [| x0 X'']; [reflexivity |]. cbn [check_array bind Ok].
  unfold weighted_preds. cbn [vote_weights].
  rewrite (repeat_axis0_negative _ _ w); [reflexivity | | exact Hw].
  apply in_or_app. right.
  destruct (Z.to_nat (batch_size kw)) eqn:E; [lia | now left].
Qed.

(** X3. The constructor accepts the weight 0.  After a fit that returns,
    [predict_votes] raises IndexError on every non-empty sequence of
    samples: there is no vote to take the mode of. *)
Theorem zero_weight_forest_cannot_vote {Sample : Type} {learner : TreeLearner Sample}
        (kw : kwargs) (s0 s1 : UpdatableRandomForestClassifier Sample)
        (X : list Sample) (y : list Z) :
  kw_init_vote_weight kw = Some 0 ->
  __init__ kw = Ok s0 -> fit X y s0 = (Ok tt, s1) ->
  forall X', X' <> [] -> predict_votes s1 X' = Raise IndexError.
Proof.
  intros Hkw Hinit Hfit X' HX'.
  apply init_Ok in Hinit as (_ & Hn & _ & Hws). rewrite Hkw in Hws.
  rewrite fit_cases in Hfit.
  destruct (RandomForestClassifier_fit (super s0) X y) as [e | base] eqn:Hbase;
    [discriminate |].
  injection Hfit as <-.
  apply RandomForestClassifier_fit_Ok in Hbase
    as (_ & _ & _ & _ & fa & Hfa & _ & Hlen & _).
  unfold predict_votes. cbn [super vote_weights]. rewrite Hfa.
  destruct X' as [| x0 X'']; [congruence |]. cbn [check_array bind Ok].
  unfold weighted_preds, all_preds. cbn [vote_weights]. rewrite Hws.
  rewrite repeat_axis0_zeros by (rewrite length_map, Hlen, Hn; reflexivity).
  reflexivity.
Qed.

(** X4. A batch that is appended with weight 0 has no say: on an ensemble
    with one weight per member, [predict_votes] answers after the append
    what it answered before, on every input. *)
Theorem zero_weight_batch_is_inert {Sample : Type} {learner : TreeLearner Sample}
        (s s' : UpdatableRandomForestClassifier Sample) (fa : fit_attrs Sample)
        (X : list Sample) (y : list Z) (kw : kwargs) :
  fitted (super s) = Some fa ->
  length (estimators_ fa) = length (vote_weights s) ->
  fit_new_data X y 0 kw s = (Ok tt, s') ->
  forall X', predict_votes s' X' = predict_votes s X'.
Proof.
  intros Hfa Hlen Hcall X'.
  apply fit_new_data_Ok in Hcall as (Hpos & fa0 & batch & Hfa0 & Hb & _ & ->).
  assert (fa0 = fa) as -> by congruence.
  eapply predict_votes_congr;
    [cbn [super fitted]; reflexivity | exact Hfa | reflexivity |].
  unfold weighted_preds, all_preds. cbn [estimators_ vote_weights].
  rewrite map_app.
  destruct (Z.to_nat (batch_size kw)) as [| n] eqn:E; [lia |].
  apply repeat_axis0_app_zeros; rewrite length_map; assumption.
Qed.

(** ** What the vote depends on *)

Lemma in_combine_ex_l {A B : Type} (l1 : list A) (l2 : list B) (a : A) :
  length l1 = length l2 -> In a l1 -> exists b, In (a, b) (combine l1 l2).
Proof.
  revert l2. induction l1 as [| a' l1 IH]; intros [| b' l2]; simpl;
    intros Hlen Hin; try discriminate; [destruct Hin |].
  destruct Hin as [-> | Hin].
  - exists b'. now left.
  - destruct (IH l2) as (b & Hb); [lia | exact Hin |]. exists b. now right.
Qed.

Lemma in_combine_ex_r {A B : Type} (l1 : list A) (l2 : list B) (b : B) :
  length l1 = length l2 -> In b l2 -> exists a, In (a, b) (combine l1 l2).
Proof.
  revert l2. induction l1 as [| a' l1 IH]; intros [| b' l2]; simpl;
    intros Hlen Hin; try discriminate; try (destruct Hin; fail).
  destruct Hin as [-> | Hin].
  - exists a'. now left.
  - destruct (IH l2) as (a & Ha); [lia | exact Hin |]. exists a. now right.
Qed.

Lemma is_mode_scale (c1 c2 : list Z) (k m : Z) :
  0 < k -> (forall v, count v c2 = k * count v c1) ->
  is_mode c1 m -> is_mode c2 m.
Proof.
  intros Hk Hc (Hin & Hmax & Hmin). split; [| split].
  - apply count_pos_In. rewrite Hc. apply count_pos_In in Hin. nia.
  - intros v. rewrite !Hc. pose proof (Hmax v). nia.
  - intros v. rewrite !Hc. intros E. apply Hmin. nia.
Qed.

Lemma modes_agree_scaled {A : Type} (B1 B2 : A -> list Z) (k : Z) (X : list A)
      (ms1 ms2 : list Z) :
  0 < k ->
  Forall2 (fun x m => is_mode (B1 x) m) X ms1 ->
  Forall2 (fun x m => is_mode (B2 x) m) X ms2 ->
  (forall x v, In x X -> count v (B2 x) = k * count v (B1 x)) ->
  ms1 = ms2.
Proof.
  intros Hk H1. revert ms2.
  induction H1 as [| x m1 X ms1 Hm1 _ IH]; intros ms2 H2 Hc.
  - inversion H2. reflexivity.
  - inversion H2 as [| ? m2 ? ms2' Hm2 H2']; subst. f_equal.
    + apply (is_mode_unique (B2 x)); [| exact Hm2].
      apply (is_mode_scale (B1 x) (B2 x) k); [exact Hk | | exact Hm1].
      intros v. apply Hc. now left.
    + apply IH; [exact H2' |]. intros x' v Hx'. apply Hc. now right.
Qed.

Section VoteDependsOn.

Context {Sample : Type}.

Abbreviation forest := (UpdatableRandomForestClassifier Sample).

Implicit Types (trees : list (estimator Sample)) (weights : list Z).

(** Two initialized ensembles with the same classes predict the same when
    the votes of one are the votes of the other times [k]. *)
Lemma predict_votes_scaled_counts (s1 s2 : forest) (fa1 fa2 : fit_attrs Sample)
      (k : Z) (X : list Sample) :
  0 < k ->
  initialized s1 fa1 -> initialized s2 fa2 -> classes_ fa1 = classes_ fa2 ->
  (forall x v, In x X ->
     weighted_count (estimators_ fa2) (vote_weights s2) x v
     = k * weighted_count (estimators_ fa1) (vote_weights s1) x v) ->
  predict_votes s1 X = predict_votes s2 X.
Proof.
  intros Hk H1 H2 Hcl Hc. destruct X as [| x0 X'].
  - unfold predict_votes. rewrite (init_fitted _ _ H1), (init_fitted _ _ H2).
    reflexivity.
  - destruct (predict_votes_modes s1 fa1 (x0 :: X') H1) as (ms1 & Hp1 & HF1);
      [discriminate |].
    destruct (predict_votes_modes s2 fa2 (x0 :: X') H2) as (ms2 & Hp2 & HF2);
      [discriminate |].
    rewrite Hp1, Hp2, Hcl. f_equal. f_equal.
    apply (modes_agree_scaled _ _ k _ ms1 ms2 Hk HF1 HF2).
    intros x v Hx.
    rewrite !ballot_count
      by (eapply initialized_weights_nonneg; eassumption).
    apply Hc. exact Hx.
Qed.

Lemma weighted_count_scale trees weights (k : Z) (x : Sample) (v : Z) :
  weighted_count trees (map (Z.mul k) weights) x v
  = k * weighted_count trees weights x v.
Proof.
  unfold weighted_count. revert weights.
  induction trees as [| e trees IH]; intros [| w weights]; simpl; try lia.
  rewrite IH. destruct (predict e x =? v); lia.
Qed.

Lemma weighted_count_permutation trees weights trees' weights' (x : Sample) (v : Z) :
  Permutation (combine trees weights) (combine trees' weights') ->
  weighted_count trees weights x v = weighted_count trees' weights' x v.
Proof.
  intros HP. unfold weighted_count. apply sum_permutation, Permutation_map, HP.
Qed.

Lemma initialized_with_members (s : forest) (fa : fit_attrs Sample)
      trees weights :
  initialized s fa ->
  trees <> [] -> length trees = length weights ->
  (forall e, In e trees -> In e (estimators_ fa)) ->
  Forall (fun w => 1 <= w) weights ->
  initialized (with_members s fa trees weights)
              {| classes_ := classes_ fa; estimators_ := trees |}.
Proof.
  intros Hi Hne Hlen Hsub Hw. split; cbn [with_members super fitted vote_weights
                                            estimators_ classes_]; auto.
  - exact (init_classes _ _ Hi).
  - intros e x He. exact (init_domain _ _ Hi e x (Hsub e He)).
Qed.

End VoteDependsOn.

(** X5. The order of the members does not matter: an initialized ensemble
    and the ensemble with the same pairs of member and weight in another
    order predict the same, on every input. *)
Theorem predict_votes_order_independent {Sample : Type}
        (s : UpdatableRandomForestClassifier Sample) (fa : fit_attrs Sample)
        (trees : list (estimator Sample)) (weights : list Z) :
  initialized s fa ->
  length trees = length weights ->
  Permutation (combine (estimators_ fa) (vote_weights s)) (combine trees weights) ->
  forall X, predict_votes (with_members s fa trees weights) X = predict_votes s X.
Proof.
  intros Hi Hlen HP X. symmetry.
  assert (Hpair : forall e w, In (e, w) (combine trees weights) ->
                              In e (estimators_ fa) /\ 1 <= w).
  { intros e w Hin. apply (Permutation_in _ (Permutation_sym HP)) in Hin.
    split; [eapply in_combine_l, Hin |].
    pose proof (init_weights _ _ Hi) as Hw. rewrite Forall_forall in Hw.
    eapply Hw, in_combine_r, Hin. }
  assert (Hi' : initialized (with_members s fa trees weights)
                            {| classes_ := classes_ fa; estimators_ := trees |}).
  { apply initialized_with_members; [exact Hi | | exact Hlen | |].
    - intros E. subst trees. apply Permutation_length in HP.
      rewrite length_combine, <- (init_lengths _ _ Hi), Nat.min_id in HP.
      cbn in HP. pose proof (init_members _ _ Hi).
      destruct (estimators_ fa); [congruence | discriminate].
    - intros e He. destruct (in_combine_ex_l trees weights e Hlen He) as (w & Hew).
      exact (proj1 (Hpair e w Hew)).
    - apply Forall_forall. intros w Hw.
      destruct (in_combine_ex_r trees weights w Hlen Hw) as (e & Hew).
      exact (proj2 (Hpair e w Hew)). }
  apply (predict_votes_scaled_counts
           s (with_members s fa trees weights) fa
           {| classes_ := classes_ fa; estimators_ := trees |} 1 X);
    [lia | exact Hi | exact Hi' | reflexivity |].
  intros x v _. cbn [with_members vote_weights estimators_].
  rewrite (weighted_count_permutation _ _ _ _ x v HP). lia.
Qed.

(** X6. Only the proportions of the weights matter: multiplying every
    weight of an initialized ensemble by the same [k >= 1] changes no
    prediction. *)
Theorem predict_votes_scale_weights {Sample : Type}
        (s : UpdatableRandomForestClassifier Sample) (fa : fit_attrs Sample)
        (k : Z) :
  initialized s fa -> 1 <= k ->
  forall X, predict_votes (with_weights s (map (Z.mul k) (vote_weights s))) X
            = predict_votes s X.
Proof.
  intros Hi Hk X. symmetry.
  assert (Hi' : initialized (with_weights s (map (Z.mul k) (vote_weights s))) fa).
  { split; cbn [with_weights super vote_weights].
    - exact (init_fitted _ _ Hi).
    - exact (init_members _ _ Hi).
    - rewrite length_map. exact (init_lengths _ _ Hi).
    - rewrite Forall_map. eapply Forall_impl; [| exact (init_weights _ _ Hi)].
      cbn beta. intros w Hw. nia.
    - exact (init_classes _ _ Hi).
    - exact (init_domain _ _ Hi). }
  apply (predict_votes_scaled_counts
           s (with_weights s (map (Z.mul k) (vote_weights s))) fa fa k X);
    [lia | exact Hi | exact Hi' | reflexivity |].
  intros x v _. cbn [with_weights vote_weights]. apply weighted_count_scale.
Qed.

Section Replication.

Context {Sample : Type}.

Implicit Types (trees : list (estimator Sample)) (weights : list Z).

Lemma ballot_app trees trees' weights weights' (x : Sample) :
  length trees = length weights ->
  ballot (trees ++ trees') (weights ++ weights') x
  = ballot trees weights x ++ ballot trees' weights' x.
Proof.
  intros Hlen. unfold ballot. rewrite combine_app_same by exact Hlen.
  apply flat_map_app.
Qed.

Lemma ballot_copies (e : estimator Sample) (n : nat) (x : Sample) :
  ballot (repeat e n) (repeat 1 n) x = repeat (predict e x) n.
Proof.
  unfold ballot. induction n as [| n IH]; simpl; [reflexivity |].
  rewrite IH. reflexivity.
Qed.

Lemma ballot_replicate trees weights (x : Sample) :
  ballot (replicate_members trees weights)
         (repeat 1 (length (replicate_members trees weights))) x
  = ballot trees weights x.
Proof.
  unfold replicate_members. revert weights.
  induction trees as [| e trees IH]; intros [| w weights]; try reflexivity.
  cbn [combine flat_map fst snd]. rewrite length_app, repeat_app, repeat_length.
  rewrite ballot_app by (rewrite !repeat_length; reflexivity).
  rewrite ballot_copies, IH. reflexivity.
Qed.

Lemma replicate_members_In trees weights (e : estimator Sample) :
  In e (replicate_members trees weights) -> In e trees.
Proof.
  unfold replicate_members. intros Hin.
  apply in_flat_map in Hin as ([e' w] & Hew & Hin).
  apply repeat_spec in Hin. cbn [fst] in Hin. subst.
  eapply in_combine_l, Hew.
Qed.

End Replication.

(** X7. A weight is a number of copies: an initialized ensemble predicts
    what the ensemble predicts in which every member stands as often as its
    weight says, each copy with weight 1. *)
Theorem weight_is_replication {Sample : Type}
        (s : UpdatableRandomForestClassifier Sample) (fa : fit_attrs Sample) :
  initialized s fa ->
  let copies := replicate_members (estimators_ fa) (vote_weights s) in
  forall X,
    predict_votes (with_members s fa copies (repeat 1 (length copies))) X
    = predict_votes s X.
Proof.
  intros Hi copies X. symmetry.
  assert (Hne : copies <> []).
  { intros E.
    pose proof (init_members _ _ Hi) as Hm. pose proof (init_lengths _ _ Hi) as Hl.
    pose proof (init_weights _ _ Hi) as Hw. unfold copies, replicate_members in E.
    destruct (estimators_ fa) as [| e es]; [congruence |].
    destruct (vote_weights s) as [| w ws]; [discriminate |].
    inversion Hw; subst. cbn [combine flat_map fst snd] in E.
    destruct (Z.to_nat w) eqn:Ew; [lia | discriminate]. }
  assert (Hi' : initialized (with_members s fa copies (repeat 1 (length copies)))
                            {| classes_ := classes_ fa; estimators_ := copies |}).
  { apply initialized_with_members; [exact Hi | exact Hne | | |].
    - rewrite repeat_length. reflexivity.
    - intros e. apply replicate_members_In.
    - apply Forall_forall. intros w Hw. apply repeat_spec in Hw. lia. }
  apply (predict_votes_same_counts
           s (with_members s fa copies (repeat 1 (length copies))) fa
           {| classes_ := classes_ fa; estimators_ := copies |} X);
    [exact Hi | exact Hi' | reflexivity |].
  intros x v _. cbn [with_members vote_weights estimators_].
  unfold copies. rewrite ballot_replicate. reflexivity.
Qed.

Section Majority.

Context {Sample : Type}.

Abbreviation forest := (UpdatableRandomForestClassifier Sample).

Lemma Forall2_In_l {A B : Type} (P : A -> B -> Prop) (l1 : list A) (l2 : list B)
      (a : A) :
  Forall2 P l1 l2 -> In a l1 -> exists b, In b l2 /\ P a b.
Proof.
  induction 1 as [| a' b l1 l2 Hab _ IH]; intros Ha.
  - destruct Ha.
  - destruct Ha as [<- | Ha].
    + exists b. split; [now left | exact Hab].
    + destruct (IH Ha) as (b' & Hb' & HP). exists b'. split; [now right | exact HP].
Qed.

End Majority.

(** X8. Majority rule: on an initialized ensemble, when the members that
    give a sample the answer [v] hold more than half of the total weight,
    the label of the sample is [classes_[v]]. *)
Theorem majority_wins {Sample : Type}
        (s : UpdatableRandomForestClassifier Sample) (fa : fit_attrs Sample)
        (X : list Sample) :
  initialized s fa -> X <> [] ->
  exists labels,
    predict_votes s X = Ok labels /\
    Forall2 (fun x l =>
               forall v,
                 sum_weights (vote_weights s)
                 < 2 * weighted_count (estimators_ fa) (vote_weights s) x v ->
                 l = class_label (classes_ fa) v)
            X labels.
Proof.
  intros Hi HX.
  destruct (predict_votes_modes s fa X Hi HX) as (modes & Hp & HF).
  exists (map (class_label (classes_ fa)) modes). split; [exact Hp |].
  apply Forall2_map_r. eapply Forall2_impl; [| exact HF].
  intros x m Hm v Hv. cbn beta. f_equal.
  pose proof (initialized_weights_nonneg s fa Hi) as Hw.
  apply (is_mode_majority _ m v Hm).
  rewrite (ballot_length _ _ x Hw (init_lengths _ _ Hi)), (ballot_count _ _ x v Hw).
  exact Hv.
Qed.

(** X9. Every sample is judged on its own: the label of a sample in a
    query is the label that [predict_votes] gives to the sample alone. *)
Theorem predict_votes_pointwise {Sample : Type}
        (s : UpdatableRandomForestClassifier Sample) (fa : fit_attrs Sample)
        (X : list Sample) :
  initialized s fa -> X <> [] ->
  exists labels,
    predict_votes s X = Ok labels /\
    Forall2 (fun x l => predict_votes s [x] = Ok [l]) X labels.
Proof.
  intros Hi HX.
  destruct (predict_votes_modes s fa X Hi HX) as (modes & Hp & HF).
  exists (map (class_label (classes_ fa)) modes). split; [exact Hp |].
  apply Forall2_map_r. eapply Forall2_impl; [| exact HF].
  intros x m Hm. cbn beta.
  destruct (predict_votes_modes s fa [x] Hi) as (ms & Hp1 & HF1); [discriminate |].
  inversion HF1 as [| ? m' ? ms' Hm' Hnil]; subst. inversion Hnil; subst.
  rewrite Hp1. cbn [map]. repeat f_equal.
  exact (is_mode_unique _ m' m Hm' Hm).
Qed.

(** X10. When, for some sample of the query, the winning answer is not an
    index of [classes_] (a later batch saw more classes than the first
    fit), [predict_votes] raises IndexError. *)
Theorem predict_votes_outside_classes {Sample : Type}
        (s : UpdatableRandomForestClassifier Sample) (fa : fit_attrs Sample)
        (X : list Sample) (x : Sample) (m : Z) :
  votable s fa -> In x X ->
  is_mode (ballot (estimators_ fa) (vote_weights s) x) m ->
  Z.of_nat (length (classes_ fa)) <= m \/ m < - Z.of_nat (length (classes_ fa)) ->
  predict_votes s X = Raise IndexError.
Proof.
  intros Hv Hx Hm Hout.
  destruct (predict_votes_take s fa X Hv) as (modes & Hp & HF).
  { intros ->. destruct Hx. }
  rewrite Hp. unfold np.take. apply mapM_Raise; [apply take1_Raise |].
  destruct (Forall2_In_l _ _ _ x HF Hx) as (m' & Hin & Hm').
  exists m'. split; [exact Hin |].
  rewrite (is_mode_unique _ m' m Hm' Hm). exists IndexError.
  apply take1_outside. exact Hout.
Qed.

(** ** A later batch and the classes of the first fit *)

Lemma unique_constant (y : list Z) (c : Z) :
  y <> [] -> (forall t, In t y -> t = c) -> np.unique y = [c].
Proof.
  induction y as [| t y IH]; intros Hne Hall; [congruence |].
  assert (t = c) as -> by (apply Hall; now left).
  unfold np.unique. cbn [fold_right]. fold (np.unique y).
  destruct y as [| t' y'].
  - reflexivity.
  - rewrite IH; [| discriminate | intros; apply Hall; now right].
    cbn [np.insert]. rewrite Z.ltb_irrefl, Z.eqb_refl. reflexivity.
Qed.

Lemma sum_weights_app (ws ws' : list Z) :
  sum_weights (ws ++ ws') = sum_weights ws + sum_weights ws'.
Proof.
  unfold sum_weights. induction ws as [| w ws IH]; simpl; lia.
Qed.

Lemma sum_weights_repeat (w : Z) (n : nat) :
  sum_weights (repeat w n) = w * Z.of_nat n.
Proof.
  unfold sum_weights. induction n as [| n IH]; [simpl; lia |].
  cbn [repeat fold_right]. rewrite IH. lia.
Qed.

Section LaterBatch.

Context {Sample : Type}.

Implicit Types (trees : list (estimator Sample)) (weights : list Z).

Lemma weighted_count_app trees trees' weights weights' (x : Sample) (v : Z) :
  length trees = length weights ->
  weighted_count (trees ++ trees') (weights ++ weights') x v
  = weighted_count trees weights x v + weighted_count trees' weights' x v.
Proof.
  intros Hlen. unfold weighted_count.
  rewrite combine_app_same by exact Hlen. rewrite map_app.
  generalize (map (fun mw : estimator Sample * Z =>
                     if predict (fst mw) x =? v then snd mw else 0)
                  (combine trees weights)) as l.
  intros l. induction l as [| a l IH]; simpl; lia.
Qed.

Lemma weighted_count_nonneg trees weights (x : Sample) (v : Z) :
  Forall (fun w => 0 <= w) weights -> 0 <= weighted_count trees weights x v.
Proof.
  unfold weighted_count. intros Hw. revert trees.
  induction Hw as [| w weights Hw0 _ IH]; intros [| e trees]; simpl; try lia.
  specialize (IH trees). destruct (predict e x =? v); lia.
Qed.

Lemma weighted_count_unanimous trees (w : Z) (x : Sample) (v : Z) :
  (forall e, In e trees -> predict e x = v) ->
  weighted_count trees (repeat w (length trees)) x v = w * Z.of_nat (length trees).
Proof.
  unfold weighted_count. induction trees as [| e trees IH]; intros Hall.
  - simpl. lia.
  - cbn [length repeat combine map fold_right fst snd].
    rewrite IH by (intros; apply Hall; now right).
    rewrite (Hall e (or_introl eq_refl)), Z.eqb_refl. lia.
Qed.

End LaterBatch.

(** X11. The answers of a later batch are read through the classes of the
    first fit.  A batch that is fitted on data with one label only,
    whatever that label is, answers 0 everywhere; when its weight
    outweighs the members that were there, every sample gets the first
    class of the first fit. *)
Theorem one_label_batch_votes_first_class {Sample : Type}
        {learner : TreeLearner Sample}
        (s s' : UpdatableRandomForestClassifier Sample) (fa : fit_attrs Sample)
        (X : list Sample) (y : list Z) (c w : Z) (kw : kwargs) :
  initialized s fa ->
  (forall t, In t y -> t = c) ->
  fit_new_data X y w kw s = (Ok tt, s') ->
  sum_weights (vote_weights s) < w * batch_size kw ->
  forall X', X' <> [] ->
    predict_votes s' X' = Ok (map (fun _ => class_label (classes_ fa) 0) X').
Proof.
  intros Hi Hy Hcall Hheavy X' HX'.
  pose proof (initialized_weights_nonneg s fa Hi) as Hw0.
  assert (Hsum : 0 <= sum_weights (vote_weights s)).
  { clear - Hw0. unfold sum_weights.
    induction Hw0 as [| w ws Hw _ IH]; simpl; lia. }
  pose proof Hcall as Hcall'.
  apply fit_new_data_Ok in Hcall as (Hpos & fa0 & batch & Hfa0 & Hb & Hdom & Hs').
  assert (fa0 = fa) as -> by (pose proof (init_fitted _ _ Hi); congruence).
  assert (Hw1 : 1 <= w) by nia.
  destruct X' as [| x0 X'']; [congruence |].
  assert (Hbatch : exists e0, In e0 batch).
  { destruct batch as [| e0 batch']; [simpl in Hb; lia | exists e0; now left]. }
  assert (Hu : np.unique y = [c]).
  { apply unique_constant; [| exact Hy]. intros ->.
    destruct Hbatch as (e0 & He0). specialize (Hdom e0 x0 He0). simpl in Hdom. lia. }
  rewrite Hu in Hdom. cbn [length] in Hdom.
  assert (Hzero : forall e x, In e batch -> predict e x = 0).
  { intros e x He. specialize (Hdom e x He). lia. }
  assert (Hcl : (1 <= length (classes_ fa))%nat).
  { pose proof (init_members _ _ Hi) as Hm.
    destruct (estimators_ fa) as [| e es] eqn:Ees; [congruence |].
    pose proof (init_domain _ _ Hi e x0) as Hd. rewrite Ees in Hd.
    specialize (Hd (or_introl eq_refl)). lia. }
  destruct (fit_new_data_initialized X y w kw s s' fa Hi Hw1) as (fa' & Hi' & Hcl');
    [rewrite Hu; exact Hcl | exact Hcall' |].
  destruct (predict_votes_modes s' fa' (x0 :: X'') Hi') as (modes & Hp & HF);
    [discriminate |].
  rewrite Hp, Hcl'. f_equal.
  assert (Hfa' : fitted (super s') = Some fa') by exact (init_fitted _ _ Hi').
  rewrite Hs' in Hfa'. cbn [super fitted] in Hfa'. injection Hfa' as <-.
  rewrite Hs' in HF. cbn [vote_weights estimators_] in HF.
  clear Hp Hi' Hcl' Hcall' Hs' HX'.
  revert HF. generalize (x0 :: X'') as Xq. intros Xq HF.
  induction HF as [| x m Xs ms Hm _ IH]; [reflexivity |].
  cbn [map]. f_equal; [| exact IH]. f_equal.
  apply (is_mode_majority _ m 0 Hm).
  assert (Hwn : Forall (fun w' => 0 <= w')
                       (vote_weights s ++ repeat w (Z.to_nat (batch_size kw)))).
  { apply Forall_app. split; [exact Hw0 |]. apply Forall_forall.
    intros w' Hin. apply repeat_spec in Hin. lia. }
  rewrite ballot_length;
    [| exact Hwn
     | rewrite !length_app, repeat_length, Hb, (init_lengths _ _ Hi); reflexivity].
  rewrite (ballot_count _ _ x 0 Hwn).
  rewrite weighted_count_app by exact (init_lengths _ _ Hi).
  rewrite <- Hb, weighted_count_unanimous by (intros e He; exact (Hzero e x He)).
  rewrite sum_weights_app, sum_weights_repeat, Hb.
  pose proof (weighted_count_nonneg (estimators_ fa) (vote_weights s) x 0 Hw0).
  rewrite Z2Nat.id by lia. lia.
Qed.

(** ** Calls of [fit_new_data] that go wrong, and the count of the trees *)

Section Bookkeeping.

Context {Sample : Type} {learner : TreeLearner Sample}.

Abbreviation forest := (UpdatableRandomForestClassifier Sample).

(** When the new forest can be trained, and with which exception not. *)
Lemma new_forest_cases (kw : kwargs) (X : list Sample) (y : list Z) :
  match kw_init_vote_weight kw with
  | Some _ => new_forest kw X y = Raise TypeError
  | None =>
    if match X with [] => true | _ => false end
       || negb (length X =? length y)%nat || (batch_size kw <=? 0)
    then new_forest kw X y = Raise ValueError
    else exists new_trees, new_forest kw X y = Ok new_trees
  end.
Proof.
  unfold new_forest, RandomForestClassifier_init, batch_size.
  destruct (kw_init_vote_weight kw); [reflexivity |].
  cbn [bind Ok]. unfold RandomForestClassifier_fit. cbn [n_estimators].
  destruct X as [| x0 X']; [reflexivity |].
  cbn [check_array bind Ok orb].
  destruct (negb (length (x0 :: X') =? length y)%nat); [reflexivity |].
  cbn [orb].
  destruct (match kw_n_estimators kw with Some n => n | None => 10 end <=? 0);
    [reflexivity |].
  eexists. reflexivity.
Qed.

Lemma lifecycle_positive (s : forest) : lifecycle s -> 0 < n_estimators (super s).
Proof.
  induction 1 as [kw X y s0 s1 Hinit Hfit
                 | X y w kw s s' r Hs IH Hcall
                 | X y s s' _ IH Hfit].
  - rewrite fit_cases in Hfit.
    destruct (RandomForestClassifier_fit (super s0) X y) as [e | base] eqn:Hb;
      [discriminate |].
    injection Hfit as <-. cbn [super].
    apply RandomForestClassifier_fit_Ok in Hb as (_ & _ & Hn & Hn' & _). lia.
  - destruct r as [e | []].
    + pose proof (lifecycle_consistent s Hs) as (_ & fa & Hfa & _).
      apply fit_new_data_Raise in Hcall as ->; [exact IH | congruence].
    + apply fit_new_data_Ok in Hcall as (Hpos & fa & batch & _ & _ & _ & ->).
      cbn [super n_estimators]. lia.
  - rewrite fit_cases in Hfit.
    destruct (RandomForestClassifier_fit (super s) X y) as [e | base] eqn:Hb;
      [discriminate |].
    injection Hfit as <-. cbn [super].
    apply RandomForestClassifier_fit_Ok in Hb as (_ & _ & Hn & Hn' & _). lia.
Qed.

End Bookkeeping.

(** X12. Before the first fit, a call of [fit_new_data] that could train
    its batch raises AttributeError, but only after it has added the size
    of the batch to [n_estimators].  A later fit then grows that many trees
    too many for the weights, and (unless the ensemble was constructed for
    exactly one tree) every call of [predict_votes] raises ValueError. *)
Theorem fit_new_data_before_first_fit {Sample : Type} {learner : TreeLearner Sample}
        (kw0 kw : kwargs) (s0 : UpdatableRandomForestClassifier Sample)
        (X1 : list Sample) (y1 : list Z) (w : Z) :
  __init__ kw0 = Ok s0 ->
  kw_init_vote_weight kw = None -> 0 < batch_size kw ->
  X1 <> [] -> length X1 = length y1 ->
  exists s1,
    fit_new_data X1 y1 w kw s0 = (Raise AttributeError, s1) /\
    fitted (super s1) = None /\
    vote_weights s1 = vote_weights s0 /\
    n_estimators (super s1) = batch_size kw0 + batch_size kw /\
    forall X y s2,
      fit X y s1 = (Ok tt, s2) ->
      length (members s2)
      = (length (vote_weights s2) + Z.to_nat (batch_size kw))%nat /\
      (batch_size kw0 <> 1 -> forall X', predict_votes s2 X' = Raise ValueError).
Proof.
  intros Hinit Hkw Hpos HX1 Hlen1.
  apply init_Ok in Hinit as (Hn0 & Hn & Hunfit & Hws).
  pose proof (fit_new_data_cases X1 y1 w kw s0) as Hc.
  pose proof (new_forest_cases kw X1 y1) as Hnew. rewrite Hkw in Hnew.
  destruct X1 as [| x1 X1']; [congruence |]. cbn [orb] in Hnew.
  rewrite Hlen1, Nat.eqb_refl in Hnew. cbn [negb orb] in Hnew.
  destruct (Z.leb_spec (batch_size kw) 0); [lia |].
  destruct Hnew as (new_trees & Hnew). rewrite Hnew, Hunfit in Hc.
  apply new_forest_Ok in Hnew as (_ & Hnn & _).
  eexists. split; [exact Hc |].
  cbn [set_n_estimators super fitted vote_weights n_estimators].
  split; [exact Hunfit |]. split; [reflexivity |]. split; [congruence |].
  intros X y s2 Hfit. rewrite fit_cases in Hfit.
  cbn [set_n_estimators super vote_weights] in Hfit.
  match type of Hfit with
  | context [RandomForestClassifier_fit ?r X y] =>
      destruct (RandomForestClassifier_fit r X y) as [e | base] eqn:Hbase
  end; [discriminate |].
  injection Hfit as <-.
  apply RandomForestClassifier_fit_Ok in Hbase
    as (_ & _ & _ & _ & fa & Hfa & _ & Hlen & _).
  cbn [n_estimators] in Hlen.
  assert (Hcount : length (estimators_ fa)
                   = (length (vote_weights s0) + Z.to_nat (batch_size kw))%nat).
  { rewrite Hlen, Hws, repeat_length, Hn, Hnn. lia. }
  unfold members. cbn [super vote_weights]. rewrite Hfa.
  split; [exact Hcount |].
  intros Hone X'. unfold predict_votes. cbn [super vote_weights]. rewrite Hfa.
  destruct X' as [| x0 X'']; [reflexivity |]. cbn [check_array bind Ok].
  unfold weighted_preds, np.repeat_axis0. cbn [vote_weights].
  destruct (existsb (fun c => c <? 0) (vote_weights s0)); [reflexivity |].
  assert (Hne : (length (vote_weights s0)
                 =? length (all_preds fa (x0 :: X'')))%nat = false).
  { apply Nat.eqb_neq. unfold all_preds. rewrite length_map, Hcount. lia. }
  assert (Hl1 : length (vote_weights s0) <> 1%nat).
  { rewrite Hws, repeat_length. lia. }
  destruct (vote_weights s0) as [| c [| c' ws]].
  - rewrite Hne. reflexivity.
  - simpl in Hl1. congruence.
  - rewrite Hne. reflexivity.
Qed.


(** X14. [n_estimators] keeps count: in every state of the lifecycle it
    is at least one and equal to the number of members and to the number
    of weights. *)
Theorem n_estimators_counts_members {Sample : Type} {learner : TreeLearner Sample}
        (s : UpdatableRandomForestClassifier Sample) :
  lifecycle s ->
  1 <= n_estimators (super s) /\
  n_estimators (super s) = Z.of_nat (length (members s)) /\
  n_estimators (super s) = Z.of_nat (length (vote_weights s)).
Proof.
  intros Hs. pose proof (lifecycle_positive s Hs) as Hpos.
  destruct (lifecycle_consistent s Hs) as (Hn & fa & Hfa & Hlen).
  unfold members. rewrite Hfa, Hlen. repeat split; [lia | exact Hn | exact Hn].
Qed.

(** X15. A second [fit] after appends trains as many trees as the ensemble
    had, on the data of this call only: the members and the classes are
    replaced, the weights, with those of the appended batches, stay. *)
Theorem refit_keeps_weights {Sample : Type} {learner : TreeLearner Sample}
        (s s' : UpdatableRandomForestClassifier Sample) (X : list Sample)
        (y : list Z) :
  lifecycle s -> fit X y s = (Ok tt, s') ->
  vote_weights s' = vote_weights s /\
  n_estimators (super s') = n_estimators (super s) /\
  length (members s') = length (members s) /\
  exists fa',
    fitted (super s') = Some fa' /\
    classes_ fa' = np.unique y /\
    estimators_ fa'
    = grow_trees (random_state (super s)) (n_estimators (super s)) X
                 (map (fun v => index_of v (np.unique y)) y).
Proof.
  intros Hs Hfit.
  destruct (lifecycle_consistent s Hs) as (Hn & fa & Hfa & Hlen).
  rewrite fit_cases in Hfit.
  destruct (RandomForestClassifier_fit (super s) X y) as [e | base] eqn:Hbase;
    [discriminate |].
  injection Hfit as <-. cbn [super vote_weights].
  unfold RandomForestClassifier_fit in Hbase.
  destruct X as [| x0 X']; [discriminate |]. cbn [check_array bind Ok] in Hbase.
  destruct (negb _); [discriminate |].
  destruct (n_estimators (super s) <=? 0); [discriminate |].
  injection Hbase as <-. unfold members. cbn [super fitted n_estimators estimators_].
  rewrite Hfa. split; [reflexivity |]. split; [reflexivity |]. split.
  - rewrite grow_trees_length, Hlen, Hn. apply Nat2Z.id.
  - eexists. split; [reflexivity |]. split; reflexivity.
Qed.

(** ** The value of [score_votes] *)

Lemma agreements_full (a b : list Z) :
  length a = length b -> (agreements a b = length b <-> a = b).
Proof.
  revert b. induction a as [| u a IH]; intros [| v b] Hlen; try discriminate.
  - simpl. tauto.
  - injection Hlen as Hlen. cbn [agreements length].
    pose proof (agreements_le a b) as Hle. specialize (IH b Hlen).
    destruct (Z.eqb_spec u v) as [-> | Hne].
    + split; [intros E; f_equal; apply IH; lia | intros [= ->]; f_equal].
      rewrite agreements_refl. reflexivity.
    + split; [lia | congruence].
Qed.

Lemma agreements_none (a b : list Z) :
  length a = length b ->
  (agreements a b = 0%nat <-> Forall2 (fun p t => p <> t) a b).
Proof.
  revert b. induction a as [| u a IH]; intros [| v b] Hlen; try discriminate.
  - simpl. split; [constructor | reflexivity].
  - injection Hlen as Hlen. cbn [agreements]. specialize (IH b Hlen).
    destruct (Z.eqb_spec u v) as [-> | Hne].
    + split; [lia |]. intros HF. inversion HF; subst. congruence.
    + split.
      * intros E. constructor; [exact Hne | apply IH; lia].
      * intros HF. inversion HF as [| ? ? ? ? _ HF']; subst.
        apply IH in HF'. lia.
Qed.

Lemma count_as_filter (t : Z) (l : list Z) :
  Z.of_nat (length (filter (fun c : bool => c) (map (fun u => u =? t) l)))
  = count t l.
Proof.
  induction l as [| u l IH]; [reflexivity |].
  cbn [map filter]. rewrite count_cons, <- IH.
  destruct (u =? t); cbn [length]; lia.
Qed.

(** X16. When the global forest predicts and there are as many labels as
    samples, [score_votes] returns a rational number between 0 and 1; it
    is 1 exactly when every prediction is the true label, and 0 exactly
    when none is. *)
Theorem score_votes_unit_interval {Sample : Type}
        (rf self : UpdatableRandomForestClassifier Sample) (X : list Sample)
        (y labels : list Z) :
  predict_votes rf X = Ok labels -> length y = length X ->
  exists q,
    score_votes (Some rf) self X y = Ok q /\
    (0 <= q)%Q /\ (q <= 1)%Q /\
    ((q == 1)%Q <-> labels = y) /\
    ((q == 0)%Q <-> Forall2 (fun p t => p <> t) labels y).
Proof.
  intros Hp Hlen. unfold score_votes. rewrite Hp. cbn [bind Ok].
  pose proof (predict_votes_length rf X labels Hp) as Hl.
  pose proof (predict_votes_Ok_nonempty rf X labels Hp) as HX.
  assert (Hly : length labels = length y) by congruence.
  rewrite equal_same_length by exact Hly.
  cbn [py_sum bind Ok]. rewrite agreements_filter.
  pose proof (agreements_le labels y) as Hle.
  pose proof (agreements_full labels y Hly) as Hfull.
  pose proof (agreements_none labels y Hly) as Hnone.
  destruct (length y) as [| n] eqn:Hy.
  - destruct X; [congruence | discriminate].
  - cbn [truediv]. eexists. split; [reflexivity |].
    assert (Hpos : Z.pos (Pos.of_nat (S n)) = Z.of_nat (S n)).
    { rewrite <- Pos.of_nat_succ, Zpos_P_of_succ_nat. lia. }
    unfold Qle, Qeq. cbn [Qnum Qden]. rewrite Hpos.
    split; [lia |]. split; [lia |]. split.
    + rewrite <- Hfull. lia.
    + rewrite <- Hnone. lia.
Qed.

(** X17. With a single true label and any number of samples the
    comparison broadcasts: [score_votes] returns the number of samples
    that the global forest predicts as that label, not a share. *)
Theorem score_votes_one_label {Sample : Type}
        (rf self : UpdatableRandomForestClassifier Sample) (X : list Sample)
        (t : Z) (labels : list Z) :
  predict_votes rf X = Ok labels ->
  score_votes (Some rf) self X [t] = Ok (count t labels # 1).
Proof.
  intros Hp. unfold score_votes. rewrite Hp. cbn [bind Ok].
  assert (Heq : np.equal labels [t]
                = np.Elementwise (map (fun u => u =? t) labels)).
  { unfold np.equal. destruct labels as [| u [| u' l]]; reflexivity. }
  rewrite Heq. cbn [py_sum bind Ok length truediv]. rewrite count_as_filter.
  reflexivity.
Qed.

(** X18. With a single sample and any number of true labels the
    prediction is compared with every label: [score_votes] returns the
    share of the labels that equal it, and raises ZeroDivisionError when
    there is no label. *)
Theorem score_votes_one_sample {Sample : Type}
        (rf self : UpdatableRandomForestClassifier Sample) (x : Sample)
        (y labels : list Z) :
  predict_votes rf [x] = Ok labels ->
  exists p,
    labels = [p] /\
    score_votes (Some rf) self [x] y
    = match y with
      | [] => Raise ZeroDivisionError
      | _ :: _ => Ok (count p y # Pos.of_nat (length y))
      end.
Proof.
  intros Hp. pose proof (predict_votes_length rf [x] labels Hp) as Hl.
  destruct labels as [| p [| p' l]]; try discriminate.
  exists p. split; [reflexivity |].
  unfold score_votes. rewrite Hp. cbn [bind Ok].
  assert (Heq : np.equal [p] y = np.Elementwise (map (fun v => p =? v) y)).
  { unfold np.equal. destruct y as [| v [| v' y']]; reflexivity. }
  rewrite Heq. cbn [py_sum bind Ok].
  assert (Hc : Z.of_nat (length (filter (fun c : bool => c)
                                        (map (fun v => p =? v) y)))
               = count p y).
  { rewrite <- count_as_filter. do 3 f_equal. apply map_ext.
    intros v. apply Z.eqb_sym. }
  rewrite Hc. destruct y as [| v y']; [reflexivity |]. reflexivity.
Qed.

(** ** The session of the notebook *)

(** X19. The session of cells 4 and 5, on any data on which the two fits
    return: the ensemble has the ten trees of the first fit with weight 1
    and then ten new trees with weight 2.  The new trees hold 20 of the 30
    votes: when the new data bring no more classes than the first and the
    new trees agree on a sample, their answer is the prediction. *)
Theorem notebook_session {Sample : Type} {learner : TreeLearner Sample}
        (rf0 rf1 rf2 : UpdatableRandomForestClassifier Sample)
        (X1 X2 : list Sample) (y1 y2 : list Z) :
  __init__ cell_4_kwargs = Ok rf0 ->
  fit X1 y1 rf0 = (Ok tt, rf1) ->
  fit_new_data X2 y2 2 cell_5_kwargs rf1 = (Ok tt, rf2) ->
  vote_weights rf2 = repeat 1 10 ++ repeat 2 10 /\
  length (members rf2) = 20%nat /\
  firstn 10 (members rf2) = members rf1 /\
  ((length (np.unique y2) <= length (np.unique y1))%nat ->
   forall x v,
     (forall e, In e (skipn 10 (members rf2)) -> predict e x = v) ->
     predict_votes rf2 [x] = Ok [class_label (np.unique y1) v]).
Proof.
  intros Hinit Hfit Hcall.
  destruct (fit_initialized cell_4_kwargs X1 y1 rf0 rf1 Hinit) as (fa1 & Hi1 & Hcl1);
    [cbn; lia | exact Hfit |].
  apply init_Ok in Hinit as (_ & _ & _ & Hws0). cbn in Hws0.
  assert (Hws1 : vote_weights rf1 = repeat 1 10).
  { rewrite fit_cases in Hfit.
    destruct (RandomForestClassifier_fit (super rf0) X1 y1); [discriminate |].
    injection Hfit as <-. exact Hws0. }
  pose proof (init_fitted _ _ Hi1) as Hfa1.
  pose proof (init_lengths _ _ Hi1) as Hlen1. rewrite Hws1 in Hlen1.
  cbn [repeat length] in Hlen1.
  pose proof Hcall as Hcall'.
  apply fit_new_data_Ok in Hcall as (_ & fa & batch & Hfa & Hb & _ & Hrf2).
  assert (fa = fa1) as -> by congruence.
  change (Z.to_nat (batch_size cell_5_kwargs)) with 10%nat in *.
  assert (Hm2 : members rf2 = estimators_ fa1 ++ batch).
  { rewrite Hrf2. reflexivity. }
  assert (Hw2 : vote_weights rf2 = repeat 1 10 ++ repeat 2 10).
  { rewrite Hrf2. cbn [vote_weights]. rewrite Hws1. reflexivity. }
  split; [exact Hw2 |]. split; [rewrite Hm2, length_app, Hlen1, Hb; reflexivity |].
  split.
  { rewrite Hm2. unfold members. rewrite Hfa1, <- Hlen1.
    rewrite firstn_app, Nat.sub_diag, firstn_all. cbn [firstn]. apply app_nil_r. }
  intros Hclasses x v Hagree.
  destruct (fit_new_data_initialized X2 y2 2 cell_5_kwargs rf1 rf2 fa1 Hi1)
    as (fa2 & Hi2 & Hcl2); [lia | rewrite Hcl1; exact Hclasses | exact Hcall' |].
  destruct (predict_votes_modes rf2 fa2 [x] Hi2) as (modes & Hp & HF);
    [discriminate |].
  inversion HF as [| ? m ? ms Hm Hnil]; subst modes. inversion Hnil; subst ms.
  rewrite Hp, Hcl2, Hcl1. cbn [map]. repeat f_equal.
  assert (Hes2 : estimators_ fa2 = estimators_ fa1 ++ batch).
  { pose proof (init_fitted _ _ Hi2) as Hfa2. rewrite Hrf2 in Hfa2.
    cbn [super fitted] in Hfa2. injection Hfa2 as <-. reflexivity. }
  rewrite Hes2, Hw2 in Hm.
  assert (Hbatch : forall e, In e batch -> predict e x = v).
  { intros e He. apply Hagree. rewrite Hm2, <- Hlen1.
    rewrite skipn_app, Nat.sub_diag, skipn_all. exact He. }
  apply (is_mode_majority _ m v Hm).
  assert (Hwn : Forall (fun w' => 0 <= w') (repeat 1 10 ++ repeat 2 10)).
  { apply Forall_forall. intros w' Hin.
    apply in_app_or in Hin as [Hin | Hin]; apply repeat_spec in Hin; lia. }
  rewrite ballot_length;
    [| exact Hwn | rewrite !length_app, !repeat_length, Hlen1, Hb; reflexivity].
  rewrite (ballot_count _ _ x v Hwn).
  rewrite weighted_count_app by (rewrite repeat_length; exact Hlen1).
  replace (repeat 2 10) with (repeat 2 (length batch)) at 2 by (rewrite Hb; reflexivity).
  rewrite weighted_count_unanimous by exact Hbatch.
  rewrite sum_weights_app, !sum_weights_repeat, Hb.
  assert (Hw10 : Forall (fun w' => 0 <= w') (repeat 1 10)).
  { apply Forall_forall. intros w' Hin. apply repeat_spec in Hin. lia. }
  pose proof (weighted_count_nonneg (estimators_ fa1) (repeat 1 10) x v Hw10).
  lia.
Qed.

(** * The further properties at the scenarios *)

Lemma exists_mode (col : list Z) : col <> [] -> exists m, is_mode col m.
Proof.
  intros Hne. eexists. apply (col_loop_mode col (np.unique col) Hne).
  - apply unique_sorted.
  - intros v Hv. apply unique_In. exact Hv.
Qed.

Lemma is_mode_of_majority (col : list Z) (v : Z) :
  Z.of_nat (length col) < 2 * count v col -> is_mode col v.
Proof.
  intros Hv. destruct (exists_mode col) as (m & Hm).
  - intros ->. unfold count in Hv. simpl in Hv. lia.
  - rewrite <- (is_mode_majority col m v Hm Hv). exact Hm.
Qed.

Module MoreScenarioFacts.
Import Scenario.

Lemma rf_C_lifecycle : lifecycle rf_C.
Proof.
  apply (lifecycle_fit_new_data [20; 21; 22; 23; 24; 25] [0; 1; 1; 1; 1; 1] 2
                                (five_more 1) rf_B rf_C (Ok tt)).
  - exact ScenarioFacts.rf_B_lifecycle.
  - reflexivity.
Qed.

Lemma rf_three_classes_votable : votable rf_three_classes fa_three_classes.
Proof.
  unfold rf_three_classes, fa_three_classes. split.
  - reflexivity.
  - discriminate.
  - reflexivity.
  - repeat constructor; lia.
Qed.

Lemma rf_C_reversed :
  Permutation (combine (estimators_ fa_C) (vote_weights rf_C))
              (combine (rev (estimators_ fa_C)) (rev (vote_weights rf_C))).
Proof.
  match goal with
  | |- Permutation ?l _ => exact (Permutation_rev l)
  end.
Qed.

End MoreScenarioFacts.

Lemma predict_votes_returns_only_if_witness :
  predict_votes Scenario.rf_C [5; 6] = Ok [1; 1] /\
  [5; 6] <> [] /\
  fitted (super Scenario.rf_C) <> None /\
  Forall (fun w => 0 <= w) (vote_weights Scenario.rf_C) /\
  length [1; 1] = length [5; 6].
Proof.
  split; [reflexivity |].
  apply (predict_votes_returns_only_if Scenario.rf_C [5; 6] [1; 1]). reflexivity.
Defined.

Lemma negative_weight_breaks_predict_witness :
  -1 < 0 /\
  fit_new_data [20; 21; 22; 23; 24; 25] [0; 1; 1; 1; 1; 1] (-1)
               (Scenario.five_more 1) Scenario.rf_B
  = (Ok tt, Scenario.rf_negative) /\
  forall X', predict_votes Scenario.rf_negative X' = Raise ValueError.
Proof.
  split; [lia |]. split; [reflexivity |].
  apply (negative_weight_breaks_predict
           Scenario.rf_B Scenario.rf_negative
           [20; 21; 22; 23; 24; 25] [0; 1; 1; 1; 1; 1] (-1) (Scenario.five_more 1)).
  - lia.
  - reflexivity.
Defined.

Lemma zero_weight_forest_cannot_vote_witness :
  __init__ Scenario.five_weightless = Ok Scenario.rf_weightless_0 /\
  fit [10; 11; 12; 13; 14] [0; 0; 0; 1; 1] Scenario.rf_weightless_0
  = (Ok tt, Scenario.rf_weightless) /\
  forall X', X' <> [] -> predict_votes Scenario.rf_weightless X' = Raise IndexError.
Proof.
  split; [reflexivity |]. split; [reflexivity |].
  apply (zero_weight_forest_cannot_vote
           Scenario.five_weightless Scenario.rf_weightless_0 Scenario.rf_weightless
           [10; 11; 12; 13; 14] [0; 0; 0; 1; 1]).
  - reflexivity.
  - reflexivity.
  - reflexivity.
Defined.

Lemma zero_weight_batch_is_inert_witness :
  fit_new_data [20; 21; 22; 23; 24; 25] [0; 1; 1; 1; 1; 1] 0
               (Scenario.five_more 1) Scenario.rf_B
  = (Ok tt, Scenario.rf_D) /\
  forall X', predict_votes Scenario.rf_D X' = predict_votes Scenario.rf_B X'.
Proof.
  split; [reflexivity |].
  apply (zero_weight_batch_is_inert
           Scenario.rf_B Scenario.rf_D Scenario.fa_B
           [20; 21; 22; 23; 24; 25] [0; 1; 1; 1; 1; 1] (Scenario.five_more 1)).
  - reflexivity.
  - reflexivity.
  - reflexivity.
Defined.

Lemma predict_votes_order_independent_witness :
  initialized Scenario.rf_C Scenario.fa_C /\
  forall X,
    predict_votes (with_members Scenario.rf_C Scenario.fa_C
                                (rev (estimators_ Scenario.fa_C))
                                (rev (vote_weights Scenario.rf_C))) X
    = predict_votes Scenario.rf_C X.
Proof.
  split; [exact ScenarioFacts.rf_C_initialized |].
  apply (predict_votes_order_independent
           Scenario.rf_C Scenario.fa_C
           (rev (estimators_ Scenario.fa_C)) (rev (vote_weights Scenario.rf_C))).
  - exact ScenarioFacts.rf_C_initialized.
  - reflexivity.
  - exact MoreScenarioFacts.rf_C_reversed.
Defined.

Lemma predict_votes_scale_weights_witness :
  initialized Scenario.rf_C Scenario.fa_C /\ 1 <= 3 /\
  forall X,
    predict_votes (with_weights Scenario.rf_C
                                (map (Z.mul 3) (vote_weights Scenario.rf_C))) X
    = predict_votes Scenario.rf_C X.
Proof.
  split; [exact ScenarioFacts.rf_C_initialized |]. split; [lia |].
  apply (predict_votes_scale_weights Scenario.rf_C Scenario.fa_C 3).
  - exact ScenarioFacts.rf_C_initialized.
  - lia.
Defined.

Lemma weight_is_replication_witness :
  initialized Scenario.rf_C Scenario.fa_C /\
  let copies := replicate_members (estimators_ Scenario.fa_C)
                                  (vote_weights Scenario.rf_C) in
  forall X,
    predict_votes (with_members Scenario.rf_C Scenario.fa_C copies
                                (repeat 1 (length copies))) X
    = predict_votes Scenario.rf_C X.
Proof.
  split; [exact ScenarioFacts.rf_C_initialized |].
  apply (weight_is_replication Scenario.rf_C Scenario.fa_C).
  exact ScenarioFacts.rf_C_initialized.
Defined.

Lemma majority_wins_witness :
  initialized Scenario.rf_C Scenario.fa_C /\ [5] <> [] /\
  exists labels,
    predict_votes Scenario.rf_C [5] = Ok labels /\
    Forall2 (fun x l =>
               forall v,
                 sum_weights (vote_weights Scenario.rf_C)
                 < 2 * weighted_count (estimators_ Scenario.fa_C)
                                      (vote_weights Scenario.rf_C) x v ->
                 l = class_label (classes_ Scenario.fa_C) v)
            [5] labels.
Proof.
  split; [exact ScenarioFacts.rf_C_initialized |]. split; [discriminate |].
  apply (majority_wins Scenario.rf_C Scenario.fa_C [5]).
  - exact ScenarioFacts.rf_C_initialized.
  - discriminate.
Defined.

Lemma predict_votes_pointwise_witness :
  initialized Scenario.rf_C Scenario.fa_C /\ [5; 6] <> [] /\
  exists labels,
    predict_votes Scenario.rf_C [5; 6] = Ok labels /\
    Forall2 (fun x l => predict_votes Scenario.rf_C [x] = Ok [l]) [5; 6] labels.
Proof.
  split; [exact ScenarioFacts.rf_C_initialized |]. split; [discriminate |].
  apply (predict_votes_pointwise Scenario.rf_C Scenario.fa_C [5; 6]).
  - exact ScenarioFacts.rf_C_initialized.
  - discriminate.
Defined.

Lemma predict_votes_outside_classes_witness :
  votable Scenario.rf_three_classes Scenario.fa_three_classes /\
  In 5 [5; 6] /\
  is_mode (ballot (estimators_ Scenario.fa_three_classes)
                  (vote_weights Scenario.rf_three_classes) 5) 2 /\
  predict_votes Scenario.rf_three_classes [5; 6] = Raise IndexError.
Proof.
  assert (Hm : is_mode (ballot (estimators_ Scenario.fa_three_classes)
                               (vote_weights Scenario.rf_three_classes) 5) 2).
  { apply is_mode_of_majority. vm_compute. reflexivity. }
  split; [exact MoreScenarioFacts.rf_three_classes_votable |].
  split; [now left |]. split; [exact Hm |].
  apply (predict_votes_outside_classes
           Scenario.rf_three_classes Scenario.fa_three_classes [5; 6] 5 2).
  - exact MoreScenarioFacts.rf_three_classes_votable.
  - now left.
  - exact Hm.
  - left. vm_compute. discriminate.
Defined.

Lemma one_label_batch_votes_first_class_witness :
  initialized Scenario.rf_B Scenario.fa_B /\
  fit_new_data [20; 21; 22] [1; 1; 1] 6 (Scenario.five_more 0) Scenario.rf_B
  = (Ok tt, Scenario.rf_one_label) /\
  forall X', X' <> [] ->
    predict_votes Scenario.rf_one_label X'
    = Ok (map (fun _ => class_label (classes_ Scenario.fa_B) 0) X').
Proof.
  split; [exact ScenarioFacts.rf_B_initialized |]. split; [reflexivity |].
  apply (one_label_batch_votes_first_class
           Scenario.rf_B Scenario.rf_one_label Scenario.fa_B
           [20; 21; 22] [1; 1; 1] 1 6 (Scenario.five_more 0)).
  - exact ScenarioFacts.rf_B_initialized.
  - intros t Ht. simpl in Ht. intuition congruence.
  - reflexivity.
  - vm_compute. reflexivity.
Defined.

Lemma fit_new_data_before_first_fit_witness :
  __init__ Scenario.five_trees = Ok Scenario.rf_0 /\
  fit [10; 11; 12] [0; 1; 1] Scenario.rf_early = (Ok tt, Scenario.rf_early_fitted) /\
  exists s1,
    fit_new_data [20; 21] [0; 1] 2 (Scenario.five_more 1) Scenario.rf_0
    = (Raise AttributeError, s1) /\
    fitted (super s1) = None /\
    vote_weights s1 = vote_weights Scenario.rf_0 /\
    n_estimators (super s1)
    = batch_size Scenario.five_trees + batch_size (Scenario.five_more 1) /\
    forall X y s2,
      fit X y s1 = (Ok tt, s2) ->
      length (members s2)
      = (length (vote_weights s2)
         + Z.to_nat (batch_size (Scenario.five_more 1)))%nat /\
      (batch_size Scenario.five_trees <> 1 ->
       forall X', predict_votes s2 X' = Raise ValueError).
Proof.
  split; [reflexivity |]. split; [reflexivity |].
  apply (fit_new_data_before_first_fit
           Scenario.five_trees (Scenario.five_more 1) Scenario.rf_0
           [20; 21] [0; 1] 2).
  - reflexivity.
  - reflexivity.
  - reflexivity.
  - discriminate.
  - reflexivity.
Defined.


Lemma n_estimators_counts_members_witness :
  lifecycle Scenario.rf_C /\
  1 <= n_estimators (super Scenario.rf_C) /\
  n_estimators (super Scenario.rf_C) = Z.of_nat (length (members Scenario.rf_C)) /\
  n_estimators (super Scenario.rf_C)
  = Z.of_nat (length (vote_weights Scenario.rf_C)).
Proof.
  split; [exact MoreScenarioFacts.rf_C_lifecycle |].
  apply (n_estimators_counts_members Scenario.rf_C).
  exact MoreScenarioFacts.rf_C_lifecycle.
Defined.

Lemma refit_keeps_weights_witness :
  lifecycle Scenario.rf_C /\
  fit [40; 41; 42] [3; 4; 4] Scenario.rf_C = (Ok tt, Scenario.rf_refitted) /\
  vote_weights Scenario.rf_refitted = vote_weights Scenario.rf_C /\
  n_estimators (super Scenario.rf_refitted) = n_estimators (super Scenario.rf_C) /\
  length (members Scenario.rf_refitted) = length (members Scenario.rf_C) /\
  exists fa',
    fitted (super Scenario.rf_refitted) = Some fa' /\
    classes_ fa' = np.unique [3; 4; 4] /\
    estimators_ fa'
    = grow_trees (random_state (super Scenario.rf_C))
                 (n_estimators (super Scenario.rf_C)) [40; 41; 42]
                 (map (fun v => index_of v (np.unique [3; 4; 4])) [3; 4; 4]).
Proof.
  split; [exact MoreScenarioFacts.rf_C_lifecycle |]. split; [reflexivity |].
  apply (refit_keeps_weights Scenario.rf_C Scenario.rf_refitted
                             [40; 41; 42] [3; 4; 4]).
  - exact MoreScenarioFacts.rf_C_lifecycle.
  - reflexivity.
Defined.

Lemma score_votes_unit_interval_witness :
  predict_votes Scenario.rf_B [5; 6] = Ok [0; 0] /\
  length [0; 1] = length [5; 6] /\
  exists q,
    score_votes (Some Scenario.rf_B) Scenario.rf_C [5; 6] [0; 1] = Ok q /\
    (0 <= q)%Q /\ (q <= 1)%Q /\
    ((q == 1)%Q <-> [0; 0] = [0; 1]) /\
    ((q == 0)%Q <-> Forall2 (fun p t => p <> t) [0; 0] [0; 1]).
Proof.
  split; [reflexivity |]. split; [reflexivity |].
  apply (score_votes_unit_interval Scenario.rf_B Scenario.rf_C
                                   [5; 6] [0; 1] [0; 0]).
  - reflexivity.
  - reflexivity.
Defined.

Lemma score_votes_one_label_witness :
  predict_votes Scenario.rf_B [5; 6; 7] = Ok [0; 0; 0] /\
  score_votes (Some Scenario.rf_B) Scenario.rf_C [5; 6; 7] [0]
  = Ok (count 0 [0; 0; 0] # 1).
Proof.
  split; [reflexivity |].
  apply (score_votes_one_label Scenario.rf_B Scenario.rf_C [5; 6; 7] 0 [0; 0; 0]).
  reflexivity.
Defined.

Lemma score_votes_one_sample_witness :
  predict_votes Scenario.rf_B [5] = Ok [0] /\
  exists p,
    [0] = [p] /\
    score_votes (Some Scenario.rf_B) Scenario.rf_C [5] [0; 1; 0]
    = match [0; 1; 0] with
      | [] => Raise ZeroDivisionError
      | _ :: _ => Ok (count p [0; 1; 0] # Pos.of_nat (length [0; 1; 0]))
      end.
Proof.
  split; [reflexivity |].
  apply (score_votes_one_sample Scenario.rf_B Scenario.rf_C 5 [0; 1; 0] [0]).
  reflexivity.
Defined.

Lemma notebook_session_witness :
  __init__ cell_4_kwargs = Ok Scenario.nb_0 /\
  fit [1; 2; 3] [0; 1; 2] Scenario.nb_0 = (Ok tt, Scenario.nb_1) /\
  fit_new_data [4; 5] [1; 1] 2 cell_5_kwargs Scenario.nb_1
  = (Ok tt, Scenario.nb_2) /\
  vote_weights Scenario.nb_2 = repeat 1 10 ++ repeat 2 10 /\
  length (members Scenario.nb_2) = 20%nat /\
  firstn 10 (members Scenario.nb_2) = members Scenario.nb_1 /\
  (Nat.le (length (np.unique [1; 1])) (length (np.unique [0; 1; 2])) ->
   forall x v,
     (forall e, In e (skipn 10 (members Scenario.nb_2)) -> predict e x = v) ->
     predict_votes Scenario.nb_2 [x] = Ok [class_label (np.unique [0; 1; 2]) v]).
Proof.
  split; [reflexivity |]. split; [reflexivity |]. split; [reflexivity |].
  apply (notebook_session Scenario.nb_0 Scenario.nb_1 Scenario.nb_2
                          [1; 2; 3] [4; 5] [0; 1; 2] [1; 1]).
  - reflexivity.
  - reflexivity.
  - reflexivity.
Defined.

(** ** More weight for the winner *)

Section Raising.

Context {Sample : Type}.

Implicit Types (trees : list (estimator Sample)) (weights : list Z).

Lemma weighted_count_raised trees weights weights' (x : Sample) (m : Z) :
  length trees = length weights ->
  Forall2 (raised x m) (combine trees weights) weights' ->
  weighted_count trees weights x m <= weighted_count trees weights' x m /\
  forall v, v <> m ->
            weighted_count trees weights' x v = weighted_count trees weights x v.
Proof.
  unfold weighted_count. revert weights weights'.
  induction trees as [| e trees IH]; intros [| w weights] weights' Hlen HF;
    try discriminate.
  - inversion HF. simpl. split; [lia | reflexivity].
  - cbn [combine] in HF. inversion HF as [| ? w' ? ws' Hr HF']; subst.
    injection Hlen as Hlen. destruct (IH weights ws' Hlen HF') as [IH1 IH2].
    unfold raised in Hr. cbn [fst snd] in Hr.
    cbn [combine map fold_right fst snd]. split.
    + destruct (predict e x =? m); lia.
    + intros v Hv. rewrite (IH2 v Hv).
      destruct (Z.eqb_spec (predict e x) m) as [E | E];
        destruct (Z.eqb_spec (predict e x) v); subst; try congruence; lia.
Qed.

Lemma raised_weights trees weights weights' (x : Sample) (m : Z) :
  length trees = length weights ->
  Forall (fun w => 1 <= w) weights ->
  Forall2 (raised x m) (combine trees weights) weights' ->
  length trees = length weights' /\ Forall (fun w => 1 <= w) weights'.
Proof.
  revert weights weights'.
  induction trees as [| e trees IH]; intros [| w weights] weights' Hlen Hw HF;
    try discriminate.
  - inversion HF. split; [reflexivity | constructor].
  - cbn [combine] in HF. inversion HF as [| ? w' ? ws' Hr HF']; subst.
    injection Hlen as Hlen. inversion Hw; subst.
    destruct (IH weights ws' Hlen) as [IH1 IH2]; try assumption.
    split; [cbn [length]; congruence |]. constructor; [| exact IH2].
    unfold raised in Hr. cbn [fst snd] in Hr.
    destruct (predict e x =? m); lia.
Qed.

End Raising.

(** X20. More weight for the members that voted for the winner keeps the
    winner: when the answer [m] wins a sample, raising the weights of
    members that gave this answer, and leaving the other weights as they
    are, leaves the prediction for the sample as it is. *)
Theorem raising_the_winner_keeps_it {Sample : Type}
        (s : UpdatableRandomForestClassifier Sample) (fa : fit_attrs Sample)
        (x : Sample) (m : Z) (weights' : list Z) :
  initialized s fa ->
  is_mode (ballot (estimators_ fa) (vote_weights s) x) m ->
  Forall2 (raised x m) (combine (estimators_ fa) (vote_weights s)) weights' ->
  predict_votes (with_weights s weights') [x] = predict_votes s [x].
Proof.
  intros Hi Hm HF.
  pose proof (init_lengths _ _ Hi) as Hlen.
  destruct (raised_weights _ _ _ x m Hlen (init_weights _ _ Hi) HF) as [Hlen' Hw'].
  destruct (weighted_count_raised _ _ _ x m Hlen HF) as [Hup Hsame].
  assert (Hi' : initialized (with_weights s weights') fa).
  { split; cbn [with_weights super vote_weights].
    - exact (init_fitted _ _ Hi).
    - exact (init_members _ _ Hi).
    - exact Hlen'.
    - exact Hw'.
    - exact (init_classes _ _ Hi).
    - exact (init_domain _ _ Hi). }
  pose proof (initialized_weights_nonneg s fa Hi) as Hn.
  pose proof (initialized_weights_nonneg _ fa Hi') as Hn'.
  cbn [with_weights vote_weights] in Hn'.
  assert (Hm' : is_mode (ballot (estimators_ fa) weights' x) m).
  { destruct Hm as (Hin & Hmax & Hmin).
    apply count_pos_In in Hin. rewrite (ballot_count _ _ x m Hn) in Hin.
    assert (Hv : forall v, v <> m ->
                   count v (ballot (estimators_ fa) weights' x)
                   = count v (ballot (estimators_ fa) (vote_weights s) x)).
    { intros v Hne. rewrite !ballot_count by assumption. exact (Hsame v Hne). }
    assert (Hmm : count m (ballot (estimators_ fa) (vote_weights s) x)
                  <= count m (ballot (estimators_ fa) weights' x)).
    { rewrite !ballot_count by assumption. exact Hup. }
    split; [| split].
    - apply count_pos_In. rewrite (ballot_count _ _ x m Hn'). lia.
    - intros v. destruct (Z.eq_dec v m) as [-> | Hne]; [lia |].
      rewrite (Hv v Hne). pose proof (Hmax v). lia.
    - intros v E. destruct (Z.eq_dec v m) as [-> | Hne]; [lia |].
      rewrite (Hv v Hne) in E. apply Hmin. pose proof (Hmax v). lia. }
  destruct (predict_votes_modes s fa [x] Hi) as (ms & Hp & HFm); [discriminate |].
  destruct (predict_votes_modes (with_weights s weights') fa [x] Hi')
    as (ms' & Hp' & HFm'); [discriminate |].
  rewrite Hp, Hp'. do 2 f_equal.
  inversion HFm as [| ? m1 ? l1 Hm1 Hn1]; subst. inversion Hn1; subst.
  inversion HFm' as [| ? m2 ? l2 Hm2 Hn2]; subst. inversion Hn2; subst.
  cbn [with_weights vote_weights] in Hm2.
  rewrite (is_mode_unique _ m1 m Hm1 Hm), (is_mode_unique _ m2 m Hm2 Hm').
  reflexivity.
Qed.

Lemma raising_the_winner_keeps_it_witness :
  initialized Scenario.rf_C Scenario.fa_C /\
  is_mode (ballot (estimators_ Scenario.fa_C) (vote_weights Scenario.rf_C) 5) 1 /\
  predict_votes (with_weights Scenario.rf_C [1; 1; 1; 4; 1; 2; 2; 7; 2; 2]) [5]
  = predict_votes Scenario.rf_C [5].
Proof.
  assert (Hm : is_mode (ballot (estimators_ Scenario.fa_C)
                               (vote_weights Scenario.rf_C) 5) 1).
  { apply is_mode_of_majority. vm_compute. reflexivity. }
  split; [exact ScenarioFacts.rf_C_initialized |]. split; [exact Hm |].
  apply (raising_the_winner_keeps_it
           Scenario.rf_C Scenario.fa_C 5 1 [1; 1; 1; 4; 1; 2; 2; 7; 2; 2]).
  - exact ScenarioFacts.rf_C_initialized.
  - exact Hm.
  - repeat constructor; unfold raised; cbn; lia.
Defined.
